(** * Model selectors for hidden-Markov word models

    A shallow embedding of [my_model_selectors.py]: the base class
    [ModelSelector] with its [base_model] method and the four strategies
    [SelectorConstant], [SelectorBIC], [SelectorDIC] and [SelectorCV].

    Python's effects are written out in a state-and-exception monad:
    the state is the part of the interpreter that the methods can touch (the
    two corpus dictionaries shared with the caller, standard output, the list
    of warning filters) paired, inside a [select] method, with the frame of
    its local variables.  State survives a raised exception, as in Python:
    what a [try] block assigned before it failed is still assigned in the
    [except] clause.

    Numbers: Python integers are [Z]; log-likelihoods and scores, which are
    floating-point numbers in the program, are idealised as rationals [Q],
    and the two infinities used as initial best scores are added on top
    ([Float]).  Rounding, NaN and overflow are outside this model.

    The libraries the module calls (hmmlearn's [GaussianHMM], scikit-learn's
    [KFold], [asl_utils.combine_sequences], [np.log]) are parameters: pure
    functions of their arguments that return a value or raise.  They are
    taken not to modify the arrays and lists passed to them. *)

From Stdlib Require Import ZArith QArith List String Bool Lia.
Import ListNotations.


Open Scope Z_scope.

(* ================================================================== *)
(** ** Data *)

(** One observation frame (a feature vector), one sequence of frames, and
    the concatenated observation matrix handed to the fitter. *)
Definition Obs : Type := list Q.
Definition Sequence : Type := list Obs.
Definition Matrix : Type := list Obs.

(** The flattened representation [(X, lengths)]. *)
Definition Flat : Type := (Matrix * list Z)%type.

(** A Python [dict] with string keys.  Iteration order is insertion order,
    and [SelectorDIC] iterates over the keys, so the order is kept. *)
Definition dict (V : Type) : Type := list (string * V).

Fixpoint dict_lookup {V : Type} (d : dict V) (k : string) : option V :=
  match d with
  | [] => None
  | (k', v) :: d' => if String.eqb k' k then Some v else dict_lookup d' k
  end.

Definition dict_keys {V : Type} (d : dict V) : list string := map fst d.

(** Exceptions the program can meet. [LibraryError] stands for whatever an
    external library (hmmlearn, scikit-learn, asl_utils) raises. *)
Inductive exn : Type :=
| KeyError (key : string)
| ValueError
| IndexError
| AttributeError
| ZeroDivisionError
| UnboundLocalError
| NotImplementedError
| LibraryError (code : Z).

Inductive res (A : Type) : Type :=
| Ret (a : A)
| Raise (e : exn).
Arguments Ret {A} a.
Arguments Raise {A} e.

(** [float("inf")], [float("-inf")] and the finite scores. *)
Inductive Float : Type :=
| NInf
| Fin (q : Q)
| PInf.

Definition Qltb (x y : Q) : bool := negb (Qle_bool y x).

(** [a < b] on floats. *)
Definition flt (a b : Float) : bool :=
  match a, b with
  | NInf, NInf => false
  | NInf, _ => true
  | Fin _, NInf => false
  | Fin x, Fin y => Qltb x y
  | Fin _, PInf => true
  | PInf, _ => false
  end.

(** A [GaussianHMM] object after [fit]: the constructor arguments that
    vary, and the fitted parameter arrays (start probabilities, transition
    matrix, means, covariances) as rows of numbers. *)
Record GaussianHMM : Type := {
  n_components : Z;
  hmm_random_state : Z;
  fitted_params : Matrix
}.

(** The external collaborators.
    - [hmm_fit X lengths n seed] is
      [GaussianHMM(n_components=n, covariance_type="diag", n_iter=1000,
      random_state=seed, verbose=False).fit(X, lengths)]: the fitted
      parameters, or the exception raised.  The seed is an integer, so every
      call starts from a fresh generator and the result is a function of the
      arguments.
    - [hmm_score m X lengths] is [m.score(X, lengths)].
    - [kfold_split seqs] is [KFold().split(seqs)], the list of
      (train indices, test indices) pairs, or the exception raised when the
      sequences are too few to split.
    - [combine_sequences idx seqs] is [asl_utils.combine_sequences].
    - [np_log n] is [np.log(n)]. *)
Record Externals : Type := {
  hmm_fit : Matrix -> list Z -> Z -> Z -> res Matrix;
  hmm_score : GaussianHMM -> Matrix -> list Z -> res Q;
  kfold_split : list Sequence -> res (list (list nat * list nat));
  combine_sequences : list nat -> list Sequence -> res Flat;
  np_log : Z -> Q
}.

(** What the program prints. *)
Inductive Line : Type :=
| ModelCreated (word : string) (num_states : Z)
| FailureOn (word : string) (num_states : Z)
| UnexpectedError (e : exn).

(** An entry of [warnings.filters]: action and category. *)
Definition WarnFilter : Type := (string * string)%type.

(** The interpreter state the methods can reach.  [all_word_sequences] and
    [all_word_Xlengths] are the two dictionaries built by the caller;
    a selector's [self.words] and [self.hwords] are references to them, not
    copies, so they live here and not in the selector record. *)
Record World : Type := {
  all_word_sequences : dict (list Sequence);
  all_word_Xlengths : dict Flat;
  stdout : list Line;
  warn_filters : list WarnFilter
}.

(** The fields of a selector other than the two dictionary references. *)
Record ModelSelector : Type := {
  sequences : list Sequence;
  X : Matrix;
  lengths : list Z;
  this_word : string;
  n_constant : Z;
  min_n_components : Z;
  max_n_components : Z;
  random_state : Z;
  verbose : bool
}.

(** The local variables of a [select] call, under the names the three
    searching strategies give them.  [None] in [model] and [score] means
    that the name is not bound yet; the inner option of [model] is Python's
    [None]. *)
Record Frame : Type := {
  best_score : Float;
  best_score_so_far : Float;
  best_model_so_far : option GaussianHMM;
  best_number_of_components : Z;
  model : option (option GaussianHMM);
  score : option Q;
  sum_log_likelihood : Q;
  count_log_likelihood : Z;
  number_of_words : Z;
  accumulated_log_likelihood_of_all_words_except_i : Q
}.

Definition set_best_score (v : Float) (f : Frame) : Frame :=
  {| best_score := v;
     best_score_so_far := best_score_so_far f;
     best_model_so_far := best_model_so_far f;
     best_number_of_components := best_number_of_components f;
     model := model f;
     score := score f;
     sum_log_likelihood := sum_log_likelihood f;
     count_log_likelihood := count_log_likelihood f;
     number_of_words := number_of_words f;
     accumulated_log_likelihood_of_all_words_except_i :=
       accumulated_log_likelihood_of_all_words_except_i f |}.

Definition set_best_score_so_far (v : Float) (f : Frame) : Frame :=
  {| best_score := best_score f;
     best_score_so_far := v;
     best_model_so_far := best_model_so_far f;
     best_number_of_components := best_number_of_components f;
     model := model f;
     score := score f;
     sum_log_likelihood := sum_log_likelihood f;
     count_log_likelihood := count_log_likelihood f;
     number_of_words := number_of_words f;
     accumulated_log_likelihood_of_all_words_except_i :=
       accumulated_log_likelihood_of_all_words_except_i f |}.

Definition set_best_model_so_far (v : option GaussianHMM) (f : Frame) : Frame :=
  {| best_score := best_score f;
     best_score_so_far := best_score_so_far f;
     best_model_so_far := v;
     best_number_of_components := best_number_of_components f;
     model := model f;
     score := score f;
     sum_log_likelihood := sum_log_likelihood f;
     count_log_likelihood := count_log_likelihood f;
     number_of_words := number_of_words f;
     accumulated_log_likelihood_of_all_words_except_i :=
       accumulated_log_likelihood_of_all_words_except_i f |}.

Definition set_best_number_of_components (v : Z) (f : Frame) : Frame :=
  {| best_score := best_score f;
     best_score_so_far := best_score_so_far f;
     best_model_so_far := best_model_so_far f;
     best_number_of_components := v;
     model := model f;
     score := score f;
     sum_log_likelihood := sum_log_likelihood f;
     count_log_likelihood := count_log_likelihood f;
     number_of_words := number_of_words f;
     accumulated_log_likelihood_of_all_words_except_i :=
       accumulated_log_likelihood_of_all_words_except_i f |}.

Definition set_model (v : option GaussianHMM) (f : Frame) : Frame :=
  {| best_score := best_score f;
     best_score_so_far := best_score_so_far f;
     best_model_so_far := best_model_so_far f;
     best_number_of_components := best_number_of_components f;
     model := Some v;
     score := score f;
     sum_log_likelihood := sum_log_likelihood f;
     count_log_likelihood := count_log_likelihood f;
     number_of_words := number_of_words f;
     accumulated_log_likelihood_of_all_words_except_i :=
       accumulated_log_likelihood_of_all_words_except_i f |}.

Definition set_score (v : Q) (f : Frame) : Frame :=
  {| best_score := best_score f;
     best_score_so_far := best_score_so_far f;
     best_model_so_far := best_model_so_far f;
     best_number_of_components := best_number_of_components f;
     model := model f;
     score := Some v;
     sum_log_likelihood := sum_log_likelihood f;
     count_log_likelihood := count_log_likelihood f;
     number_of_words := number_of_words f;
     accumulated_log_likelihood_of_all_words_except_i :=
       accumulated_log_likelihood_of_all_words_except_i f |}.

Definition set_sum_log_likelihood (v : Q) (f : Frame) : Frame :=
  {| best_score := best_score f;
     best_score_so_far := best_score_so_far f;
     best_model_so_far := best_model_so_far f;
     best_number_of_components := best_number_of_components f;
     model := model f;
     score := score f;
     sum_log_likelihood := v;
     count_log_likelihood := count_log_likelihood f;
     number_of_words := number_of_words f;
     accumulated_log_likelihood_of_all_words_except_i :=
       accumulated_log_likelihood_of_all_words_except_i f |}.

Definition set_count_log_likelihood (v : Z) (f : Frame) : Frame :=
  {| best_score := best_score f;
     best_score_so_far := best_score_so_far f;
     best_model_so_far := best_model_so_far f;
     best_number_of_components := best_number_of_components f;
     model := model f;
     score := score f;
     sum_log_likelihood := sum_log_likelihood f;
     count_log_likelihood := v;
     number_of_words := number_of_words f;
     accumulated_log_likelihood_of_all_words_except_i :=
       accumulated_log_likelihood_of_all_words_except_i f |}.

Definition set_number_of_words (v : Z) (f : Frame) : Frame :=
  {| best_score := best_score f;
     best_score_so_far := best_score_so_far f;
     best_model_so_far := best_model_so_far f;
     best_number_of_components := best_number_of_components f;
     model := model f;
     score := score f;
     sum_log_likelihood := sum_log_likelihood f;
     count_log_likelihood := count_log_likelihood f;
     number_of_words := v;
     accumulated_log_likelihood_of_all_words_except_i :=
       accumulated_log_likelihood_of_all_words_except_i f |}.

Definition set_accumulated (v : Q) (f : Frame) : Frame :=
  {| best_score := best_score f;
     best_score_so_far := best_score_so_far f;
     best_model_so_far := best_model_so_far f;
     best_number_of_components := best_number_of_components f;
     model := model f;
     score := score f;
     sum_log_likelihood := sum_log_likelihood f;
     count_log_likelihood := count_log_likelihood f;
     number_of_words := number_of_words f;
     accumulated_log_likelihood_of_all_words_except_i := v |}.

(** The frame on entry to [select]: the initial assignments of the three
    methods ([best_score = inf] in BIC, [best_score_so_far = -inf] in DIC and
    CV, [best_model_so_far = None], [best_number_of_components = 0]); the
    other names are assigned inside the loops before they are read. *)
Definition fresh_frame : Frame :=
  {| best_score := PInf;
     best_score_so_far := NInf;
     best_model_so_far := None;
     best_number_of_components := 0;
     model := None;
     score := None;
     sum_log_likelihood := 0%Q;
     count_log_likelihood := 0;
     number_of_words := 0;
     accumulated_log_likelihood_of_all_words_except_i := 0%Q |}.

(* ================================================================== *)
(** ** The monad *)

Definition M (S A : Type) : Type := S -> res A * S.

Definition ret {S A : Type} (a : A) : M S A := fun s => (Ret a, s).

Definition raise {S A : Type} (e : exn) : M S A := fun s => (Raise e, s).

Definition bind {S A B : Type} (m : M S A) (f : A -> M S B) : M S B :=
  fun s =>
    match m s with
    | (Ret a, s') => f a s'
    | (Raise e, s') => (Raise e, s')
    end.

(** [try: m except: h] with a bare [except], which catches everything. *)
Definition try_except {S A : Type} (m : M S A) (h : exn -> M S A) : M S A :=
  fun s =>
    match m s with
    | (Ret a, s') => (Ret a, s')
    | (Raise e, s') => h e s'
    end.

(** The outcome of a call into a library. *)
Definition lift {S A : Type} (r : res A) : M S A := fun s => (r, s).

Declare Scope py_scope.
Delimit Scope py_scope with py.
Notation "x <- m ;; k" := (bind m (fun x => k))
  (at level 61, m at next level, right associativity) : py_scope.
Notation "m ;; k" := (bind m (fun _ => k))
  (at level 61, right associativity) : py_scope.
Open Scope py_scope.

(** [for x in xs: body]. *)
Fixpoint for_each {S A : Type} (xs : list A) (body : A -> M S unit) : M S unit :=
  match xs with
  | [] => ret tt
  | x :: xs' => body x ;; for_each xs' body
  end.

(** A method call from a [select] body: it runs on the world and leaves
    the caller's frame alone. *)
Definition in_world {L A : Type} (m : M World A) : M (World * L) A :=
  fun s => let (r, w') := m (fst s) in (r, (w', snd s)).

(** Reading and assigning local variables. *)
Definition locals {W L : Type} : M (W * L) L := fun s => (Ret (snd s), s).

Definition assign {W L : Type} (f : L -> L) : M (W * L) unit :=
  fun s => (Ret tt, (fst s, f (snd s))).

(** Run a method body on a new frame; the frame is dropped on return and
    its final content handed to the continuation. *)
Definition with_frame {L A : Type} (l0 : L) (m : M (World * L) A) : M World (A * L) :=
  fun w =>
    match m (w, l0) with
    | (Ret a, (w', l)) => (Ret (a, l), w')
    | (Raise e, (w', _)) => (Raise e, w')
    end.

(* ================================================================== *)
(** ** Builtins *)

(** Reading [self.words] and [self.hwords]: the dictionaries behind the two
    references. *)
Definition self_words : M World (dict (list Sequence)) :=
  fun w => (Ret (all_word_sequences w), w).

Definition self_hwords : M World (dict Flat) :=
  fun w => (Ret (all_word_Xlengths w), w).

Definition print (l : Line) : M World unit :=
  fun w => (Ret tt,
            {| all_word_sequences := all_word_sequences w;
               all_word_Xlengths := all_word_Xlengths w;
               stdout := stdout w ++ [l];
               warn_filters := warn_filters w |}).

Definition filter_eqb (a b : WarnFilter) : bool :=
  String.eqb (fst a) (fst b) && String.eqb (snd a) (snd b).

Fixpoint remove_filter (item : WarnFilter) (fs : list WarnFilter) : list WarnFilter :=
  match fs with
  | [] => []
  | f :: fs' => if filter_eqb f item then fs' else f :: remove_filter item fs'
  end.

(** [warnings.filterwarnings(action, category=...)]: the entry is taken out
    of the filter list if it is there already and put at the front. *)
Definition filterwarnings (action category : string) : M World unit :=
  fun w => (Ret tt,
            {| all_word_sequences := all_word_sequences w;
               all_word_Xlengths := all_word_Xlengths w;
               stdout := stdout w;
               warn_filters :=
                 (action, category) :: remove_filter (action, category) (warn_filters w) |}).

(** [d[k]]. *)
Definition dict_get {V : Type} (d : dict V) (k : string) : res V :=
  match dict_lookup d k with
  | Some v => Ret v
  | None => Raise (KeyError k)
  end.

(** [xs[0]]. *)
Definition first_row {A : Type} (xs : list A) : res A :=
  match xs with
  | x :: _ => Ret x
  | [] => Raise IndexError
  end.

(** [len(xs)]. *)
Definition len {A : Type} (xs : list A) : Z := Z.of_nat (List.length xs).

(** [range(a, b)]. *)
Definition py_range (a b : Z) : list Z :=
  map (fun i => a + Z.of_nat i) (seq 0 (Z.to_nat (b - a))).

(** [xs.remove(x)]: drops the first occurrence, [ValueError] if none. *)
Fixpoint list_remove (x : string) (xs : list string) : res (list string) :=
  match xs with
  | [] => Raise ValueError
  | y :: ys =>
      if String.eqb y x then Ret ys
      else match list_remove x ys with
           | Ret ys' => Ret (y :: ys')
           | Raise e => Raise e
           end
  end.

(** [a / d] with an integer divisor.  A zero divisor raises: in both places
    where the program divides, the divisor can only be zero while the
    dividend is still the integer [0] it was initialised with. *)
Definition py_div (a : Q) (d : Z) : res Q :=
  if d =? 0 then Raise ZeroDivisionError else Ret (a / inject_Z d)%Q.

(** [m.score(X, lengths)] where [m] may be [None]. *)
Definition score_of (E : Externals) (m : option GaussianHMM) (X0 : Matrix) (lengths0 : list Z)
  : res Q :=
  match m with
  | Some hmm => hmm_score E hmm X0 lengths0
  | None => Raise AttributeError
  end.

(** Reading the local [model], which may not be bound yet. *)
Definition read_model (f : Frame) : res (option GaussianHMM) :=
  match model f with
  | Some m => Ret m
  | None => Raise UnboundLocalError
  end.

(* ================================================================== *)
(** ** The classes *)

Section Selectors.

Variable E : Externals.

(** [ModelSelector.__init__].  The two dictionary arguments are the ones of
    the world; [self.sequences], [self.X] and [self.lengths] are looked up
    under [this_word], each lookup raising [KeyError] on a missing key. *)
Definition ModelSelector_init (this_word0 : string) (n_constant0 : Z)
    (min_n_components0 max_n_components0 : Z) (random_state0 : Z) (verbose0 : bool)
  : M World ModelSelector :=
  all_word_sequences0 <- self_words ;;
  all_word_Xlengths0 <- self_hwords ;;
  seqs <- lift (dict_get all_word_sequences0 this_word0) ;;
  xl <- lift (dict_get all_word_Xlengths0 this_word0) ;;
  ret {| sequences := seqs;
         X := fst xl;
         lengths := snd xl;
         this_word := this_word0;
         n_constant := n_constant0;
         min_n_components := min_n_components0;
         max_n_components := max_n_components0;
         random_state := random_state0;
         verbose := verbose0 |}.

(** [ModelSelector.select] of the base class. *)
Definition ModelSelector_select (self : ModelSelector) : M World (option GaussianHMM) :=
  raise NotImplementedError.

(** [ModelSelector.base_model]: the fitted model, or [None] when anything
    in the [try] block raised. *)
Definition base_model (self : ModelSelector) (num_states : Z) : M World (option GaussianHMM) :=
  filterwarnings "ignore" "DeprecationWarning" ;;
  try_except
    (params <- lift (hmm_fit E (X self) (lengths self) num_states (random_state self)) ;;
     let hmm_model := {| n_components := num_states;
                         hmm_random_state := random_state self;
                         fitted_params := params |} in
     (if verbose self then print (ModelCreated (this_word self) num_states) else ret tt) ;;
     ret (Some hmm_model))
    (fun _ =>
     (if verbose self then print (FailureOn (this_word self) num_states) else ret tt) ;;
     ret None).

(** *** SelectorConstant *)

(** The method body. *)
Definition SelectorConstant_select (self : ModelSelector) : M (World * Frame) (option GaussianHMM) :=
  let best_num_components := n_constant self in
  in_world (base_model self best_num_components).

(** *** SelectorBIC *)

(** One turn of the loop over [num_states]. *)
Definition SelectorBIC_candidate (self : ModelSelector) (num_states : Z) : M (World * Frame) unit :=
  try_except
    (m <- in_world (base_model self num_states) ;;
     assign (set_model m) ;;
     row <- lift (first_row (X self)) ;;
     let p := num_states * (num_states - 1) + 2 * len row * num_states in
     logL <- lift (score_of E m (X self) (lengths self)) ;;
     let sc := (-2 * logL + inject_Z p * np_log E (len (X self)))%Q in
     assign (set_score sc) ;;
     f <- locals ;;
     if flt (Fin sc) (best_score f)
     then assign (set_best_score (Fin sc)) ;;
          assign (set_best_model_so_far m)
     else ret tt)
    (fun e => in_world (print (UnexpectedError e))).

(** The method body.  A model object is truthy, so [not best_model_so_far]
    holds exactly when the variable is still [None]. *)
Definition SelectorBIC_select (self : ModelSelector) : M (World * Frame) (option GaussianHMM) :=
  in_world (filterwarnings "ignore" "DeprecationWarning") ;;
  for_each (py_range (min_n_components self) (max_n_components self + 1))
           (SelectorBIC_candidate self) ;;
  f <- locals ;;
  match best_model_so_far f with
  | None => in_world (base_model self (n_constant self))
  | Some m => ret (Some m)
  end.

(** *** SelectorDIC *)

(** One turn of the loop over the other words.  The score and the
    comparison with the best score so far stand inside this loop, after the
    inner [try]. *)
Definition SelectorDIC_word (self : ModelSelector) (num_states : Z) (log_likelihood_of_i : Q)
    (word : string) : M (World * Frame) unit :=
  try_except
    (model_selector_all_words_except_i <-
       in_world (ModelSelector_init word (n_constant self) (min_n_components self)
                   (max_n_components self) (random_state self) (verbose self)) ;;
     let model_selector_X := X model_selector_all_words_except_i in
     let model_selector_lengths := lengths model_selector_all_words_except_i in
     m <- in_world (base_model model_selector_all_words_except_i num_states) ;;
     model_selector_score <- lift (score_of E m model_selector_X model_selector_lengths) ;;
     assign (fun f => set_accumulated
               (accumulated_log_likelihood_of_all_words_except_i f + model_selector_score)%Q f))
    (fun _ => assign (fun f => set_number_of_words (number_of_words f - 1) f)) ;;
  f <- locals ;;
  q <- lift (py_div (accumulated_log_likelihood_of_all_words_except_i f)
                    (number_of_words f - 1)) ;;
  let sc := (log_likelihood_of_i - q)%Q in
  assign (set_score sc) ;;
  if flt (best_score_so_far f) (Fin sc)
  then assign (set_best_score_so_far (Fin sc)) ;;
       assign (set_best_number_of_components num_states)
  else ret tt.

(** One turn of the loop over [num_states]. *)
Definition SelectorDIC_candidate (self : ModelSelector) (num_states : Z) : M (World * Frame) unit :=
  try_except
    (m <- in_world (base_model self num_states) ;;
     log_likelihood_of_i <- lift (score_of E m (X self) (lengths self)) ;;
     d <- in_world self_words ;;
     let words := dict_keys d in
     assign (set_number_of_words (len words)) ;;
     words' <- lift (list_remove (this_word self) words) ;;
     assign (set_accumulated 0%Q) ;;
     for_each words' (SelectorDIC_word self num_states log_likelihood_of_i))
    (fun e => in_world (print (UnexpectedError e))).

(** The method body.  [not best_number_of_components] holds exactly when
    the count is [0]; the model returned is fitted anew. *)
Definition SelectorDIC_select (self : ModelSelector) : M (World * Frame) (option GaussianHMM) :=
  in_world (filterwarnings "ignore" "DeprecationWarning") ;;
  for_each (py_range (min_n_components self) (max_n_components self + 1))
           (SelectorDIC_candidate self) ;;
  f <- locals ;;
  if best_number_of_components f =? 0
  then in_world (base_model self (n_constant self))
  else in_world (base_model self (best_number_of_components f)).

(** *** SelectorCV *)

(** One turn of the loop over the folds.  [base_model] takes no data: it
    fits on [self.X] and [self.lengths]; the combined training sequences are
    what the model is scored on.  The fold's log-likelihood is assigned to
    [sum_log_likelihood], not added to it. *)
Definition SelectorCV_fold (self : ModelSelector) (num_states : Z) (fold : list nat * list nat)
  : M (World * Frame) unit :=
  let cv_train_idx := fst fold in
  xl <- lift (combine_sequences E cv_train_idx (sequences self)) ;;
  let X0 := fst xl in
  let lengths0 := snd xl in
  m <- in_world (base_model self num_states) ;;
  assign (set_model m) ;;
  try_except
    (logL <- lift (score_of E m X0 lengths0) ;;
     assign (set_sum_log_likelihood logL) ;;
     assign (fun f => set_count_log_likelihood (count_log_likelihood f + 1) f))
    (fun _ => ret tt).

(** One turn of the loop over [num_states]. *)
Definition SelectorCV_candidate (self : ModelSelector) (num_states : Z) : M (World * Frame) unit :=
  assign (set_sum_log_likelihood 0%Q) ;;
  assign (set_count_log_likelihood 0) ;;
  try_except
    (folds <- lift (kfold_split E (sequences self)) ;;
     for_each folds (SelectorCV_fold self num_states) ;;
     f <- locals ;;
     sc <- lift (py_div (sum_log_likelihood f) (count_log_likelihood f)) ;;
     assign (set_score sc) ;;
     if flt (best_score_so_far f) (Fin sc)
     then assign (set_best_score_so_far (Fin sc)) ;;
          m <- lift (read_model f) ;;
          assign (set_best_model_so_far m)
     else ret tt)
    (fun e => in_world (print (UnexpectedError e))).

(** The method body. *)
Definition SelectorCV_select (self : ModelSelector) : M (World * Frame) (option GaussianHMM) :=
  in_world (filterwarnings "ignore" "DeprecationWarning") ;;
  for_each (py_range (min_n_components self) (max_n_components self + 1))
           (SelectorCV_candidate self) ;;
  f <- locals ;;
  match best_model_so_far f with
  | None => in_world (base_model self (n_constant self))
  | Some m => ret (Some m)
  end.

(** *** The four strategies under one name *)

Inductive Strategy : Type :=
| Constant
| BIC
| DIC
| CV.

Definition select_body (strategy : Strategy) (self : ModelSelector)
  : M (World * Frame) (option GaussianHMM) :=
  match strategy with
  | Constant => SelectorConstant_select self
  | BIC => SelectorBIC_select self
  | DIC => SelectorDIC_select self
  | CV => SelectorCV_select self
  end.

(** A call [selector.select()]: the method body of the selector's class run
    on a new frame of locals. *)
Definition select (strategy : Strategy) (self : ModelSelector) : M World (option GaussianHMM) :=
  r <- with_frame fresh_frame (select_body strategy self) ;;
  ret (fst r).

(** The locals as [select] leaves them, for statements about what the
    search computed. *)
Definition frame_after (strategy : Strategy) (self : ModelSelector) (w : World) : Frame :=
  snd (snd (select_body strategy self (w, fresh_frame))).

End Selectors.

(* ================================================================== *)
(** ** Stand-ins for the libraries, and a small corpus

    Concrete collaborators on which the methods can be run.  The fitter
    memorises: the "parameters" of a fitted model are the observations it
    was fitted on, so a model tells which data it saw.  It fails on the
    state counts picked out by [failing].  The scorer answers [ll m X]. *)

Definition stub_fit (failing : Z -> bool) (X0 : Matrix) (lengths0 : list Z) (n seed : Z)
  : res Matrix :=
  if failing n then Raise (LibraryError 1) else Ret X0.

Definition stub_score (ll : GaussianHMM -> Matrix -> Q) (m : GaussianHMM) (X0 : Matrix)
    (lengths0 : list Z) : res Q :=
  Ret (ll m X0).

(** Consecutive blocks of the given sizes, starting at [start]. *)
Fixpoint blocks (start : nat) (sizes : list nat) : list (list nat) :=
  match sizes with
  | [] => []
  | sz :: rest => seq start sz :: blocks (start + sz) rest
  end.

(** Three folds without shuffling: the test folds are consecutive blocks,
    the first [n mod 3] of them one longer; fewer than three samples is an
    error. *)
Definition stub_kfold (seqs : list Sequence) : res (list (list nat * list nat)) :=
  let n := List.length seqs in
  if (n <? 3)%nat then Raise ValueError
  else
    let sizes := map (fun i => (n / 3 + (if i <? n mod 3 then 1 else 0))%nat) (seq 0 3) in
    Ret (map (fun test =>
                (filter (fun i => negb (existsb (Nat.eqb i) test)) (seq 0 n), test))
             (blocks 0 sizes)).

Fixpoint pick (idx : list nat) (seqs : list Sequence) : res (list Sequence) :=
  match idx with
  | [] => Ret []
  | i :: idx' =>
      match nth_error seqs i, pick idx' seqs with
      | Some s, Ret ss => Ret (s :: ss)
      | None, _ => Raise IndexError
      | _, Raise e => Raise e
      end
  end.

(** Concatenation of sequences and the list of their lengths. *)
Definition flatten (seqs : list Sequence) : Flat := (List.concat seqs, map len seqs).

Definition stub_combine (idx : list nat) (seqs : list Sequence) : res Flat :=
  match pick idx seqs with
  | Ret ss => Ret (flatten ss)
  | Raise e => Raise e
  end.

Definition stub_env (failing : Z -> bool) (ll : GaussianHMM -> Matrix -> Q) : Externals :=
  {| hmm_fit := stub_fit failing;
     hmm_score := stub_score ll;
     kfold_split := stub_kfold;
     combine_sequences := stub_combine;
     np_log := fun n => inject_Z (Z.log2 n) |}.

(** Three words with one-dimensional features. *)
Definition book_sequences : list Sequence :=
  [ [[0%Q]]; [[0%Q]; [1%Q]]; [[2%Q]] ].
Definition chair_sequences : list Sequence :=
  [ [[(-10)%Q]; [3%Q]] ].
Definition fish_sequences : list Sequence :=
  [ [[100%Q]]; [[7%Q]] ].

Definition demo_world : World :=
  {| all_word_sequences :=
       [("BOOK", book_sequences); ("CHAIR", chair_sequences); ("FISH", fish_sequences)]%string;
     all_word_Xlengths :=
       [("BOOK", flatten book_sequences); ("CHAIR", flatten chair_sequences);
        ("FISH", flatten fish_sequences)]%string;
     stdout := [];
     warn_filters := [] |}.

(** The selector [ModelSelector_init] builds for BOOK in [demo_world]. *)
Definition demo_selector (n_constant0 min0 max0 : Z) : ModelSelector :=
  {| sequences := book_sequences;
     X := fst (flatten book_sequences);
     lengths := snd (flatten book_sequences);
     this_word := "BOOK";
     n_constant := n_constant0;
     min_n_components := min0;
     max_n_components := max0;
     random_state := 14;
     verbose := false |}.

(** Scorers: the first feature of the first frame times [3 - n]; the
    constant 6; minus the number of frames. *)
Definition ll_first (m : GaussianHMM) (X0 : Matrix) : Q :=
  match X0 with
  | (x :: _) :: _ => (x * inject_Z (3 - n_components m))%Q
  | _ => 0%Q
  end.

Definition ll_six (m : GaussianHMM) (X0 : Matrix) : Q := 6%Q.

Definition ll_frames (m : GaussianHMM) (X0 : Matrix) : Q := inject_Z (- len X0).

Definition never (n : Z) : bool := false.
Definition always (n : Z) : bool := true.
Definition from_two (n : Z) : bool := 2 <=? n.

(* ================================================================== *)
(** ** Notions used in the statements and the proofs *)

(** [wp m Q s]: running [m] from [s] ends with an outcome and a state that
    satisfy [Q]. *)
Definition wp {S A : Type} (m : M S A) (Q : res A -> S -> Prop) (s : S) : Prop :=
  Q (fst (m s)) (snd (m s)).

(** The two dictionaries of a world. *)
Definition corpus (w : World) : dict (list Sequence) * dict Flat :=
  (all_word_sequences w, all_word_Xlengths w).

(** What a [select] body can read: the dictionaries and its own frame. *)
Definition visible (s : World * Frame) : (dict (list Sequence) * dict Flat) * Frame :=
  (corpus (fst s), snd s).

(** [keeps k m]: [m] leaves the component [k] of the state as it found it. *)
Definition keeps {S K A : Type} (k : S -> K) (m : M S A) : Prop :=
  forall s, k (snd (m s)) = k s.

(** [stable v m]: the outcome of [m] and the [v]-part of the final state
    depend on the [v]-part of the initial state only. *)
Definition stable {S V A : Type} (v : S -> V) (m : M S A) : Prop :=
  forall s s', v s = v s' ->
    fst (m s) = fst (m s') /\ v (snd (m s)) = v (snd (m s')).

Section Views.

Variable E : Externals.

(** The value [base_model] returns. *)
Definition fitted (self : ModelSelector) (n : Z) : option GaussianHMM :=
  match hmm_fit E (X self) (lengths self) n (random_state self) with
  | Ret params => Some {| n_components := n;
                          hmm_random_state := random_state self;
                          fitted_params := params |}
  | Raise _ => None
  end.

(** The score and the model of one candidate, when its turn of the loop
    gets as far as the score. *)
Definition BIC_outcome (self : ModelSelector) (n : Z) : option (Q * GaussianHMM) :=
  match fitted self n, X self with
  | Some m, row :: _ =>
      match hmm_score E m (X self) (lengths self) with
      | Ret logL =>
          Some ((-2 * logL
                 + inject_Z (n * (n - 1) + 2 * len row * n) * np_log E (len (X self)))%Q, m)
      | Raise _ => None
      end
  | _, _ => None
  end.

(** What the loop has found after the candidates [done]: nothing yet, or
    a candidate whose score is the least of those computed. *)
Definition BIC_best (self : ModelSelector) (done : list Z) (f : Frame) : Prop :=
  ((forall n, In n done -> BIC_outcome self n = None) /\
   best_score f = PInf /\ best_model_so_far f = None /\ score f = None)
  \/
  (exists n sc m,
      In n done /\ BIC_outcome self n = Some (sc, m) /\
      best_score f = Fin sc /\ best_model_so_far f = Some m /\ score f <> None /\
      forall n' sc' m', In n' done -> BIC_outcome self n' = Some (sc', m') -> (sc <= sc')%Q).

(** What holds between the folds of one candidate, started from frame [f]:
    the best model and the score are those of [f], and once a fold has been
    counted the local [model] is the fitted model. *)
Definition CV_fold_inv (self : ModelSelector) (n : Z) (w : World) (f : Frame)
    (s : World * Frame) : Prop :=
  corpus (fst s) = corpus w /\
  score (snd s) = score f /\
  best_model_so_far (snd s) = best_model_so_far f /\
  (count_log_likelihood (snd s) = 0 \/
   (model (snd s) = Some (fitted self n) /\ fitted self n <> None)).

(** One candidate either leaves the best model and the score alone, or
    computes a score and then keeps the best model or replaces it by the
    model fitted at this candidate. *)
Definition CV_candidate_post (self : ModelSelector) (n : Z) (w : World) (f : Frame)
    (s' : World * Frame) : Prop :=
  corpus (fst s') = corpus w /\
  ((score (snd s') = score f /\ best_model_so_far (snd s') = best_model_so_far f)
   \/ (score (snd s') <> None /\
       (best_model_so_far (snd s') = best_model_so_far f
        \/ exists m, best_model_so_far (snd s') = Some m /\ fitted self n = Some m))).

(** The outcome of [ModelSelector_init] in a world. *)
Definition init_value (w : World) (word : string) (nc mn mx rs : Z) (vb : bool)
  : res ModelSelector :=
  match dict_get (all_word_sequences w) word with
  | Ret seqs =>
      match dict_get (all_word_Xlengths w) word with
      | Ret xl => Ret {| sequences := seqs;
                         X := fst xl;
                         lengths := snd xl;
                         this_word := word;
                         n_constant := nc;
                         min_n_components := mn;
                         max_n_components := mx;
                         random_state := rs;
                         verbose := vb |}
      | Raise e => Raise e
      end
  | Raise e => Raise e
  end.

(** What holds between the words of one candidate [n], started from frame
    [f]: nothing scored and the best count is that of [f], or something
    scored and the best count is that of [f] or [n]. *)
Definition DIC_word_inv (n : Z) (w : World) (f : Frame) (s : World * Frame) : Prop :=
  corpus (fst s) = corpus w /\
  ((score (snd s) = score f /\
    best_number_of_components (snd s) = best_number_of_components f)
   \/ (score (snd s) <> None /\
       (best_number_of_components (snd s) = best_number_of_components f
        \/ best_number_of_components (snd s) = n))).

(** One candidate of the DIC search either leaves the best count and the
    score alone, or computes a score and then keeps the best count or sets
    it to this candidate, at which the fit then succeeds. *)
Definition DIC_candidate_post (self : ModelSelector) (n : Z) (w : World) (f : Frame)
    (s' : World * Frame) : Prop :=
  corpus (fst s') = corpus w /\
  ((score (snd s') = score f /\
    best_number_of_components (snd s') = best_number_of_components f)
   \/ (score (snd s') <> None /\
       (best_number_of_components (snd s') = best_number_of_components f
        \/ (best_number_of_components (snd s') = n /\ fitted self n <> None)))).

(** [select] returns without raising; the value is what [base_model] gives
    for [n_constant], or the model fitted at a candidate of the range; and
    it is the former when no score was computed. *)
Definition select_post (self : ModelSelector) (r : res (option GaussianHMM)) (f : Frame)
  : Prop :=
  exists r0,
    r = Ret r0 /\
    (r0 = fitted self (n_constant self) \/
     exists n m, min_n_components self <= n <= max_n_components self /\
                 fitted self n = Some m /\ r0 = Some m) /\
    (score f = None -> r0 = fitted self (n_constant self)).

(** The best model of the CV search comes from a candidate already tried,
    and there is none while no score has been computed. *)
Definition CV_found (self : ModelSelector) (xs : list Z) (f : Frame) : Prop :=
  (score f = None -> best_model_so_far f = None) /\
  (forall m, best_model_so_far f = Some m -> exists n, In n xs /\ fitted self n = Some m).

(** The best state count of the DIC search is [0] or a candidate already
    tried at which the fit succeeds, and it is [0] while no score has been
    computed. *)
Definition DIC_found (self : ModelSelector) (xs : list Z) (f : Frame) : Prop :=
  (score f = None -> best_number_of_components f = 0) /\
  (best_number_of_components f = 0 \/
   (In (best_number_of_components f) xs /\
    fitted self (best_number_of_components f) <> None)).

(** What the inner [try] of [SelectorDIC_word] computes for [word]: the
    log-likelihood of the model fitted on that word's data, or the
    exception that makes the [except] clause run. *)
Definition DIC_other_score (self : ModelSelector) (n : Z) (w : World) (word : string)
  : res Q :=
  match init_value w word (n_constant self) (min_n_components self)
          (max_n_components self) (random_state self) (verbose self) with
  | Ret sel => score_of E (fitted sel n) (X sel) (lengths sel)
  | Raise e => Raise e
  end.

(** The running sum after the words [done]. *)
Definition sum_of (ll : string -> Q) (done : list string) : Q :=
  fold_left (fun a word => (a + ll word)%Q) done 0%Q.

(** What holds after the words [done] of candidate [n], started from frame
    [f] in a vocabulary of [nw] words, when every other word's model fits
    and scores: the sum holds the log-likelihoods of [done]; the score, if
    any word was seen, is the own log-likelihood less that sum over
    [nw - 1]; and the best count is [n], or still that of [f]. *)
Definition DIC_ok_inv (n : Z) (li : Q) (ll : string -> Q) (nw : Z) (w : World) (f : Frame)
    (done : list string) (s : World * Frame) : Prop :=
  corpus (fst s) = corpus w /\
  accumulated_log_likelihood_of_all_words_except_i (snd s) = sum_of ll done /\
  number_of_words (snd s) = nw /\
  (done = [] -> score (snd s) = score f) /\
  (done <> [] ->
   score (snd s) = Some (li - sum_of ll done / inject_Z (nw - 1))%Q) /\
  ((best_number_of_components (snd s) = n /\ best_score_so_far (snd s) <> NInf)
   \/ (best_number_of_components (snd s) = best_number_of_components f /\
       best_score_so_far (snd s) = best_score_so_far f /\
       (done <> [] -> best_score_so_far f <> NInf))).

(** The own fit and every other word's fit succeed at [n]: [li] is the own
    log-likelihood and [ll word] that of each other word. *)
Definition all_fit_at (self : ModelSelector) (w : World) (others : list string) (n : Z)
    (li : Q) (ll : string -> Q) : Prop :=
  (exists m, fst (base_model E self n w) = Ret (Some m) /\
             hmm_score E m (X self) (lengths self) = Ret li) /\
  (forall word, In word others ->
     exists sel m,
       fst (ModelSelector_init word (n_constant self) (min_n_components self)
              (max_n_components self) (random_state self) (verbose self) w) = Ret sel /\
       fst (base_model E sel n w) = Ret (Some m) /\
       hmm_score E m (X sel) (lengths sel) = Ret (ll word)).

(** The score the BIC loop computes for candidate [n], read from the local
    [score] after one turn on a new frame; [None] when the turn fails
    before the score. *)
Definition BIC_score (self : ModelSelector) (n : Z) (w : World) : option Q :=
  score (snd (snd (SelectorBIC_candidate E self n (w, fresh_frame)))).

End Views.

(** The state count of the model a call returned, if it returned one. *)
Definition reported_state_count (r : res (option GaussianHMM)) : option Z :=
  match r with
  | Ret (Some m) => Some (n_components m)
  | _ => None
  end.

(** The log-likelihood of another vocabulary item at [n] states, in the
    words of the specification: fit a model at [n] on that item's data and
    score it on the same data; [None] when the fit or the score fails. *)
Definition spec_other_log_likelihood (E : Externals) (self : ModelSelector) (w : World)
    (n : Z) (word : string) : option Q :=
  match dict_lookup (all_word_Xlengths w) word with
  | Some (Xw, lw) =>
      match hmm_fit E Xw lw n (random_state self) with
      | Ret params =>
          match hmm_score E {| n_components := n;
                               hmm_random_state := random_state self;
                               fitted_params := params |} Xw lw with
          | Ret q => Some q
          | Raise _ => None
          end
      | Raise _ => None
      end
  | None => None
  end.

(** The values that are there. *)
Fixpoint successes (xs : list (option Q)) : list Q :=
  match xs with
  | [] => []
  | Some q :: xs' => q :: successes xs'
  | None :: xs' => successes xs'
  end.

(** The DIC score as the specification words it: computed once the
    accumulation is complete, [L_i - sum / (count_of_others - 1)], where
    [count_of_others] counts the other items whose fit succeeded.  It is
    left undefined when that divisor is zero. *)
Definition spec_DIC_score (E : Externals) (self : ModelSelector) (w : World) (n : Z)
  : option Q :=
  match hmm_fit E (X self) (lengths self) n (random_state self) with
  | Ret params =>
      match hmm_score E {| n_components := n;
                           hmm_random_state := random_state self;
                           fitted_params := params |} (X self) (lengths self) with
      | Ret L_i =>
          let others := filter (fun word => negb (String.eqb word (this_word self)))
                               (dict_keys (all_word_sequences w)) in
          let lls := successes (map (spec_other_log_likelihood E self w n) others) in
          let count_of_others := len lls in
          if count_of_others - 1 =? 0 then None
          else Some (L_i - fold_left Qplus lls 0 / inject_Z (count_of_others - 1))%Q
      | Raise _ => None
      end
  | Raise _ => None
  end.

(* ================================================================== *)
(** ** Notions for the search as a whole *)

(** Choosing among candidates by a key, lower being better: the loop keeps
    the first candidate whose key is least.  [val n] is the key of
    candidate [n], or [None] when its turn computes none. *)
Section Choice.

Variable val : Z -> option Q.

(** One turn of the loop on the choice so far: a key replaces the choice
    when there is none yet or when it is strictly lower. *)
Definition choose_step (cur : option (Z * Q)) (n : Z) : option (Z * Q) :=
  match val n with
  | None => cur
  | Some v =>
      match cur with
      | None => Some (n, v)
      | Some (_, v0) => if Qltb v v0 then Some (n, v) else cur
      end
  end.

Definition choose_from (cur : option (Z * Q)) (xs : list Z) : option (Z * Q) :=
  fold_left choose_step xs cur.

Definition choose (xs : list Z) : option (Z * Q) := choose_from None xs.

(** [n], with key [v], is the first candidate of [xs] with the least key:
    the candidates before it have strictly greater keys, those after it
    keys that are not lower. *)
Definition first_least (xs : list Z) (n : Z) (v : Q) : Prop :=
  exists pre post,
    xs = pre ++ n :: post /\ val n = Some v /\
    (forall n' v', In n' pre -> val n' = Some v' -> (v < v')%Q) /\
    (forall n' v', In n' post -> val n' = Some v' -> (v <= v')%Q).

(** The mirror image: the first candidate with the greatest key. *)
Definition first_greatest (xs : list Z) (n : Z) (v : Q) : Prop :=
  exists pre post,
    xs = pre ++ n :: post /\ val n = Some v /\
    (forall n' v', In n' pre -> val n' = Some v' -> (v' < v)%Q) /\
    (forall n' v', In n' post -> val n' = Some v' -> (v' <= v)%Q).

End Choice.

(** The candidates of a selector, in the order of the loop. *)
Definition candidates (self : ModelSelector) : list Z :=
  py_range (min_n_components self) (max_n_components self + 1).





Section SearchViews.

Variable E : Externals.

(** The key of a BIC candidate: its score. *)
Definition BIC_key (self : ModelSelector) (n : Z) : option Q :=
  option_map fst (BIC_outcome E self n).

(** The BIC frame holds the choice [cur]. *)
Definition BIC_holds (self : ModelSelector) (cur : option (Z * Q)) (f : Frame) : Prop :=
  match cur with
  | None => best_score f = PInf /\ best_model_so_far f = None
  | Some (n, v) =>
      best_score f = Fin v /\
      exists m, BIC_outcome E self n = Some (v, m) /\ best_model_so_far f = Some m
  end.

(** The folds of one CV candidate on the pair (sum, count): a fold whose
    training sequences do not combine ends the loop with the exception; a
    fold whose score fails leaves the pair; a fold that scores replaces the
    sum by its log-likelihood and adds one to the count. *)
Fixpoint CV_folds (self : ModelSelector) (n : Z) (folds : list (list nat * list nat))
    (acc : Q * Z) : res (Q * Z) :=
  match folds with
  | [] => Ret acc
  | fold :: rest =>
      match combine_sequences E (fst fold) (sequences self) with
      | Raise e => Raise e
      | Ret xl =>
          match score_of E (fitted E self n) (fst xl) (snd xl) with
          | Ret logL => CV_folds self n rest (logL, snd acc + 1)
          | Raise _ => CV_folds self n rest acc
          end
      end
  end.

(** The score of a CV candidate, when its turn gets as far as the score. *)
Definition CV_outcome (self : ModelSelector) (n : Z) : option Q :=
  match kfold_split E (sequences self) with
  | Ret folds =>
      match CV_folds self n folds (0%Q, 0) with
      | Ret (s, c) => if c =? 0 then None else Some (s / inject_Z c)%Q
      | Raise _ => None
      end
  | Raise _ => None
  end.

(** The key of a CV candidate: its score negated, so that lower is better. *)
Definition CV_key (self : ModelSelector) (n : Z) : option Q :=
  option_map Qopp (CV_outcome self n).

(** The CV frame holds the choice [cur]. *)
Definition CV_holds (self : ModelSelector) (cur : option (Z * Q)) (f : Frame) : Prop :=
  match cur with
  | None => best_score_so_far f = NInf /\ best_model_so_far f = None
  | Some (n, v) =>
      exists sc m,
        v = (- sc)%Q /\ CV_outcome self n = Some sc /\
        best_score_so_far f = Fin sc /\
        fitted E self n = Some m /\ best_model_so_far f = Some m
  end.

(** What holds between the folds of one CV candidate: the pair the pure
    loop has reached is in the frame. *)
Definition CV_pair_inv (acc : Q * Z) (s : World * Frame) : Prop :=
  sum_log_likelihood (snd s) = fst acc /\ count_log_likelihood (snd s) = snd acc.

(** The score the CV loop computes for candidate [n], read from the local
    [score] after one turn on a new frame. *)
Definition CV_score (self : ModelSelector) (n : Z) (w : World) : option Q :=
  score (snd (snd (SelectorCV_candidate E self n (w, fresh_frame)))).

(** The log-likelihood one fold contributes at candidate [n]: that of the
    model [base_model(n)] returns on the fold's combined training
    sequences; [None] when they do not combine or the score fails. *)
Definition fold_log_likelihood (self : ModelSelector) (n : Z) (w : World)
    (fold : list nat * list nat) : option Q :=
  match combine_sequences E (fst fold) (sequences self),
        fst (base_model E self n w) with
  | Ret xl, Ret m =>
      match score_of E m (fst xl) (snd xl) with
      | Ret logL => Some logL
      | Raise _ => None
      end
  | _, _ => None
  end.

End SearchViews.

(** More stand-ins: a splitter that gives the same training indices as
    [stub_kfold] and no test indices; a scorer that is [ll_first] plus one
    wherever the first feature is not zero; a fitter that fails at three
    states only; a vocabulary of one word. *)
Definition stub_kfold_blind (seqs : list Sequence) : res (list (list nat * list nat)) :=
  match stub_kfold seqs with
  | Ret folds => Ret (map (fun fold => (fst fold, @nil nat)) folds)
  | Raise e => Raise e
  end.

Definition stub_env_blind (failing : Z -> bool) (ll : GaussianHMM -> Matrix -> Q)
  : Externals :=
  {| hmm_fit := stub_fit failing;
     hmm_score := stub_score ll;
     kfold_split := stub_kfold_blind;
     combine_sequences := stub_combine;
     np_log := fun n => inject_Z (Z.log2 n) |}.

Definition ll_first_up (m : GaussianHMM) (X0 : Matrix) : Q :=
  match X0 with
  | (x :: _) :: _ =>
      if Qeq_bool x 0 then 0%Q else (x * inject_Z (3 - n_components m) + 1)%Q
  | _ => 0%Q
  end.

Definition only_three (n : Z) : bool := n =? 3.

(** A selector whose observation matrix has no rows, and the selector
    [ModelSelector_init] builds for CHAIR, which has a single sequence. *)
Definition empty_selector : ModelSelector :=
  {| sequences := [];
     X := [];
     lengths := [];
     this_word := "BOOK";
     n_constant := 3;
     min_n_components := 2;
     max_n_components := 10;
     random_state := 14;
     verbose := false |}.

Definition chair_selector : ModelSelector :=
  {| sequences := chair_sequences;
     X := fst (flatten chair_sequences);
     lengths := snd (flatten chair_sequences);
     this_word := "CHAIR";
     n_constant := 3;
     min_n_components := 2;
     max_n_components := 10;
     random_state := 14;
     verbose := false |}.

Definition solo_world : World :=
  {| all_word_sequences := [("BOOK", book_sequences)]%string;
     all_word_Xlengths := [("BOOK", flatten book_sequences)]%string;
     stdout := [];
     warn_filters := [] |}.

(* ================================================================== *)
(** ** Reasoning about runs *)

Section MonadLaws.

Context {S A B : Type}.

Lemma wp_ret (a : A) (Q : res A -> S -> Prop) s : Q (Ret a) s -> wp (ret a) Q s.
Proof. exact (fun H => H). Qed.

Lemma wp_raise (e : exn) (Q : res A -> S -> Prop) s : Q (Raise e) s -> wp (raise e) Q s.
Proof. exact (fun H => H). Qed.

Lemma wp_lift (r : res A) (Q : res A -> S -> Prop) s : Q r s -> wp (lift r) Q s.
Proof. exact (fun H => H). Qed.

Lemma wp_bind (m : M S A) (f : A -> M S B) (Q : res B -> S -> Prop) s :
  wp m (fun r s' => match r with
                    | Ret a => wp (f a) Q s'
                    | Raise e => Q (Raise e) s'
                    end) s ->
  wp (bind m f) Q s.
Proof.
  unfold wp, bind. destruct (m s) as [[a | e] s']; simpl; auto.
Qed.

Lemma wp_try (m : M S A) (h : exn -> M S A) (Q : res A -> S -> Prop) s :
  wp m (fun r s' => match r with
                    | Ret a => Q (Ret a) s'
                    | Raise e => wp (h e) Q s'
                    end) s ->
  wp (try_except m h) Q s.
Proof.
  unfold wp, try_except. destruct (m s) as [[a | e] s']; simpl; auto.
Qed.

Lemma wp_mono (m : M S A) (Q Q' : res A -> S -> Prop) s :
  (forall r s', Q r s' -> Q' r s') -> wp m Q s -> wp m Q' s.
Proof. unfold wp. auto. Qed.

Lemma keeps_ret {K : Type} (k : S -> K) (a : A) : keeps k (ret a).
Proof. intro s. reflexivity. Qed.

Lemma keeps_raise {K : Type} (k : S -> K) (e : exn) : keeps k (@raise S A e).
Proof. intro s. reflexivity. Qed.

Lemma keeps_lift {K : Type} (k : S -> K) (r : res A) : keeps k (@lift S A r).
Proof. intro s. reflexivity. Qed.

Lemma keeps_bind {K : Type} (k : S -> K) (m : M S A) (f : A -> M S B) :
  keeps k m -> (forall a, keeps k (f a)) -> keeps k (bind m f).
Proof.
  intros Hm Hf s. unfold bind. specialize (Hm s).
  destruct (m s) as [[a | e] s']; simpl in *.
  - rewrite Hf. exact Hm.
  - exact Hm.
Qed.

Lemma keeps_try {K : Type} (k : S -> K) (m : M S A) (h : exn -> M S A) :
  keeps k m -> (forall e, keeps k (h e)) -> keeps k (try_except m h).
Proof.
  intros Hm Hh s. unfold try_except. specialize (Hm s).
  destruct (m s) as [[a | e] s']; simpl in *.
  - exact Hm.
  - rewrite Hh. exact Hm.
Qed.

Lemma stable_ret {V : Type} (v : S -> V) (a : A) : stable v (ret a).
Proof. intros s s' H. split; [reflexivity | exact H]. Qed.

Lemma stable_raise {V : Type} (v : S -> V) (e : exn) : stable v (@raise S A e).
Proof. intros s s' H. split; [reflexivity | exact H]. Qed.

Lemma stable_lift {V : Type} (v : S -> V) (r : res A) : stable v (@lift S A r).
Proof. intros s s' H. split; [reflexivity | exact H]. Qed.

Lemma stable_bind {V : Type} (v : S -> V) (m : M S A) (f : A -> M S B) :
  stable v m -> (forall a, stable v (f a)) -> stable v (bind m f).
Proof.
  intros Hm Hf s s' H. unfold bind. destruct (Hm s s' H) as [Hr Hv].
  destruct (m s) as [r1 s1], (m s') as [r2 s2]; simpl in *. subst r2.
  destruct r1 as [a | e].
  - apply Hf. exact Hv.
  - split; [reflexivity | exact Hv].
Qed.

Lemma stable_try {V : Type} (v : S -> V) (m : M S A) (h : exn -> M S A) :
  stable v m -> (forall e, stable v (h e)) -> stable v (try_except m h).
Proof.
  intros Hm Hh s s' H. unfold try_except. destruct (Hm s s' H) as [Hr Hv].
  destruct (m s) as [r1 s1], (m s') as [r2 s2]; simpl in *. subst r2.
  destruct r1 as [a | e].
  - split; [reflexivity | exact Hv].
  - apply Hh. exact Hv.
Qed.

End MonadLaws.

Section LoopLaws.

Context {S A : Type}.

(** A loop whose turns never raise and keep [I] ends normally in [I]. *)
Lemma wp_for_each (I : S -> Prop) (xs : list A) (body : A -> M S unit) :
  (forall x s, In x xs -> I s -> wp (body x) (fun r s' => r = Ret tt /\ I s') s) ->
  forall s, I s -> wp (for_each xs body) (fun r s' => r = Ret tt /\ I s') s.
Proof.
  induction xs as [| x xs IH]; intros Hbody s Hs.
  - split; [reflexivity | exact Hs].
  - simpl. apply wp_bind.
    eapply wp_mono; [| apply (Hbody x s (or_introl eq_refl) Hs)].
    intros r s' [-> Hs']. apply IH; [| exact Hs'].
    intros y t Hy. apply Hbody. right. exact Hy.
Qed.

(** A loop whose turns keep [I], raising or not, ends in [I]. *)
Lemma wp_for_each_any (I : S -> Prop) (xs : list A) (body : A -> M S unit) :
  (forall x s, In x xs -> I s -> wp (body x) (fun _ s' => I s') s) ->
  forall s, I s -> wp (for_each xs body) (fun _ s' => I s') s.
Proof.
  induction xs as [| x xs IH]; intros Hbody s Hs.
  - exact Hs.
  - simpl. apply wp_bind.
    eapply wp_mono; [| apply (Hbody x s (or_introl eq_refl) Hs)].
    intros [[] | e] s' Hs'; [| exact Hs'].
    apply IH; [| exact Hs'].
    intros y t Hy. apply Hbody. right. exact Hy.
Qed.

Lemma keeps_for_each {K : Type} (k : S -> K) (xs : list A) (body : A -> M S unit) :
  (forall x, keeps k (body x)) -> keeps k (for_each xs body).
Proof.
  intro Hb. induction xs as [| x xs IH]; simpl.
  - apply keeps_ret.
  - apply keeps_bind; [apply Hb | intros _; exact IH].
Qed.

Lemma stable_for_each {V : Type} (v : S -> V) (xs : list A) (body : A -> M S unit) :
  (forall x, stable v (body x)) -> stable v (for_each xs body).
Proof.
  intro Hb. induction xs as [| x xs IH]; simpl.
  - apply stable_ret.
  - apply stable_bind; [apply Hb | intros _; exact IH].
Qed.

End LoopLaws.

Section FrameLaws.

Context {A : Type}.

Lemma wp_in_world (m : M World A) (Q : res A -> World * Frame -> Prop) s :
  wp m (fun r w' => Q r (w', snd s)) (fst s) -> wp (in_world m) Q s.
Proof.
  unfold wp, in_world. destruct (m (fst s)) as [r w']. simpl. auto.
Qed.

Lemma wp_locals (Q : res Frame -> World * Frame -> Prop) s :
  Q (Ret (snd s)) s -> wp locals Q s.
Proof. exact (fun H => H). Qed.

Lemma wp_assign (f : Frame -> Frame) (Q : res unit -> World * Frame -> Prop) s :
  Q (Ret tt) (fst s, f (snd s)) -> wp (assign f) Q s.
Proof. exact (fun H => H). Qed.

Lemma wp_with_frame (l0 : Frame) (m : M (World * Frame) A)
    (Q : res (A * Frame) -> World -> Prop) w :
  wp m (fun r s' => match r with
                    | Ret a => Q (Ret (a, snd s')) (fst s')
                    | Raise e => Q (Raise e) (fst s')
                    end) (w, l0) ->
  wp (with_frame l0 m) Q w.
Proof.
  unfold wp, with_frame. destruct (m (w, l0)) as [[a | e] [w' l]]; simpl; auto.
Qed.

Lemma keeps_in_world (m : M World A) :
  keeps corpus m -> keeps (fun s : World * Frame => corpus (fst s)) (in_world m).
Proof.
  intros Hm s. unfold in_world. specialize (Hm (fst s)).
  destruct (m (fst s)) as [r w']. exact Hm.
Qed.

Lemma stable_in_world (m : M World A) :
  stable corpus m -> stable visible (in_world m).
Proof.
  intros Hm [w l] [w' l'] H.
  pose proof (f_equal fst H) as Hc. pose proof (f_equal snd H) as Hl.
  simpl in Hc, Hl. subst l'.
  unfold in_world. simpl. destruct (Hm w w' Hc) as [Hr Hv].
  destruct (m w) as [r1 w1], (m w') as [r2 w2]; simpl in *.
  split; [exact Hr |]. unfold visible. simpl. rewrite Hv. reflexivity.
Qed.

Lemma keeps_with_frame (l0 : Frame) (m : M (World * Frame) A) :
  keeps (fun s : World * Frame => corpus (fst s)) m -> keeps corpus (with_frame l0 m).
Proof.
  intros Hm w. unfold with_frame. specialize (Hm (w, l0)).
  destruct (m (w, l0)) as [[a | e] [w' l]]; exact Hm.
Qed.

Lemma stable_with_frame (l0 : Frame) (m : M (World * Frame) A) :
  stable visible m -> stable corpus (with_frame l0 m).
Proof.
  intros Hm w w' H. unfold with_frame.
  destruct (Hm (w, l0) (w', l0)) as [Hr Hv].
  { unfold visible. simpl. rewrite H. reflexivity. }
  destruct (m (w, l0)) as [r1 [w1 l1]], (m (w', l0)) as [r2 [w2 l2]]; simpl in *.
  subst r2.
  pose proof (f_equal fst Hv) as Hc. pose proof (f_equal snd Hv) as Hl.
  simpl in Hc, Hl. subst l2.
  destruct r1; simpl; split; (reflexivity || exact Hc).
Qed.

End FrameLaws.

Lemma keeps_locals : keeps (fun s : World * Frame => corpus (fst s)) locals.
Proof. intro s. reflexivity. Qed.

Lemma keeps_assign (f : Frame -> Frame) :
  keeps (fun s : World * Frame => corpus (fst s)) (assign f).
Proof. intro s. reflexivity. Qed.

Lemma stable_locals : stable visible (@locals World Frame).
Proof.
  intros [w l] [w' l'] H. split; [| exact H].
  unfold visible in H. simpl in *. congruence.
Qed.

Lemma stable_assign (f : Frame -> Frame) : stable visible (assign f).
Proof.
  intros [w l] [w' l'] H. split; [reflexivity |].
  unfold visible in *. simpl in *. congruence.
Qed.

Lemma keeps_print (l : Line) : keeps corpus (print l).
Proof. intro w. reflexivity. Qed.

Lemma stable_print (l : Line) : stable corpus (print l).
Proof. intros w w' H. split; [reflexivity | exact H]. Qed.

Lemma keeps_filterwarnings (a c : string) : keeps corpus (filterwarnings a c).
Proof. intro w. reflexivity. Qed.

Lemma stable_filterwarnings (a c : string) : stable corpus (filterwarnings a c).
Proof. intros w w' H. split; [reflexivity | exact H]. Qed.

Lemma keeps_self_words : keeps corpus self_words.
Proof. intro w. reflexivity. Qed.

Lemma keeps_self_hwords : keeps corpus self_hwords.
Proof. intro w. reflexivity. Qed.

Lemma stable_self_words : stable corpus self_words.
Proof.
  intros w w' H. split; [| exact H].
  unfold self_words, corpus in *. simpl. congruence.
Qed.

Lemma stable_self_hwords : stable corpus self_hwords.
Proof.
  intros w w' H. split; [| exact H].
  unfold self_hwords, corpus in *. simpl. congruence.
Qed.

(** Goals [keeps _ m] and [stable _ m] are settled by following the shape
    of [m]; what is known about the methods is kept in the hint database
    [frame]. *)
Create HintDb frame.

#[global] Hint Resolve keeps_print keeps_filterwarnings keeps_self_words
  keeps_self_hwords keeps_locals keeps_assign : frame.
#[global] Hint Resolve stable_print stable_filterwarnings stable_self_words
  stable_self_hwords stable_locals stable_assign : frame.

Ltac frame_step :=
  match goal with
  | |- keeps _ (ret _) => apply keeps_ret
  | |- keeps _ (raise _) => apply keeps_raise
  | |- keeps _ (lift _) => apply keeps_lift
  | |- keeps _ (bind _ _) => apply keeps_bind
  | |- keeps _ (try_except _ _) => apply keeps_try
  | |- keeps _ (for_each _ _) => apply keeps_for_each
  | |- keeps _ (in_world _) => apply keeps_in_world
  | |- keeps _ (with_frame _ _) => apply keeps_with_frame
  | |- keeps _ (if ?b then _ else _) => destruct b
  | |- keeps _ (match ?x with _ => _ end) => destruct x
  | |- stable _ (ret _) => apply stable_ret
  | |- stable _ (raise _) => apply stable_raise
  | |- stable _ (lift _) => apply stable_lift
  | |- stable _ (bind _ _) => apply stable_bind
  | |- stable _ (try_except _ _) => apply stable_try
  | |- stable _ (for_each _ _) => apply stable_for_each
  | |- stable _ (in_world _) => apply stable_in_world
  | |- stable _ (with_frame _ _) => apply stable_with_frame
  | |- stable _ (if ?b then _ else _) => destruct b
  | |- stable _ (match ?x with _ => _ end) => destruct x
  | |- _ => solve [auto with frame]
  end.

Ltac frame := repeat (intros; cbv zeta; frame_step).

Section Frames.

Variable E : Externals.

Lemma keeps_init word nc mn mx rs vb :
  keeps corpus (ModelSelector_init word nc mn mx rs vb).
Proof. unfold ModelSelector_init. frame. Qed.

Lemma stable_init word nc mn mx rs vb :
  stable corpus (ModelSelector_init word nc mn mx rs vb).
Proof. unfold ModelSelector_init. frame. Qed.

Lemma keeps_base_model self n : keeps corpus (base_model E self n).
Proof. unfold base_model. frame. Qed.

Lemma stable_base_model self n : stable corpus (base_model E self n).
Proof. unfold base_model. frame. Qed.

Hint Resolve keeps_init stable_init keeps_base_model stable_base_model : frame.

Lemma keeps_DIC_word self n li word :
  keeps (fun s : World * Frame => corpus (fst s)) (SelectorDIC_word E self n li word).
Proof. unfold SelectorDIC_word. frame. Qed.

Lemma stable_DIC_word self n li word :
  stable visible (SelectorDIC_word E self n li word).
Proof. unfold SelectorDIC_word. frame. Qed.

Hint Resolve keeps_DIC_word stable_DIC_word : frame.

Lemma keeps_select_body strategy self :
  keeps (fun s : World * Frame => corpus (fst s)) (select_body E strategy self).
Proof.
  destruct strategy; simpl.
  - unfold SelectorConstant_select. frame.
  - unfold SelectorBIC_select, SelectorBIC_candidate. frame.
  - unfold SelectorDIC_select, SelectorDIC_candidate. frame.
  - unfold SelectorCV_select, SelectorCV_candidate, SelectorCV_fold. frame.
Qed.

Lemma stable_select_body strategy self :
  stable visible (select_body E strategy self).
Proof.
  destruct strategy; simpl.
  - unfold SelectorConstant_select. frame.
  - unfold SelectorBIC_select, SelectorBIC_candidate. frame.
  - unfold SelectorDIC_select, SelectorDIC_candidate. frame.
  - unfold SelectorCV_select, SelectorCV_candidate, SelectorCV_fold. frame.
Qed.

Lemma keeps_select strategy self : keeps corpus (select E strategy self).
Proof. unfold select. frame. apply keeps_select_body. Qed.

Lemma stable_select strategy self : stable corpus (select E strategy self).
Proof. unfold select. frame. apply stable_select_body. Qed.

End Frames.

(* ================================================================== *)
(** ** What the methods compute *)

(** An operation on the world with a known outcome that keeps the
    dictionaries. *)
Lemma wp_world_op {A : Type} (m : M World A) (r : res A) (Q : res A -> World -> Prop) w :
  keeps corpus m -> fst (m w) = r ->
  (forall w', corpus w' = corpus w -> Q r w') ->
  wp m Q w.
Proof.
  intros Hk Hr HQ. unfold wp. rewrite Hr. apply HQ. apply Hk.
Qed.

Lemma wp_print (l : Line) (Q : res unit -> World -> Prop) w :
  (forall w', corpus w' = corpus w -> Q (Ret tt) w') -> wp (print l) Q w.
Proof. apply wp_world_op; [apply keeps_print | reflexivity]. Qed.

Lemma wp_filterwarnings (a c : string) (Q : res unit -> World -> Prop) w :
  (forall w', corpus w' = corpus w -> Q (Ret tt) w') -> wp (filterwarnings a c) Q w.
Proof. apply wp_world_op; [apply keeps_filterwarnings | reflexivity]. Qed.

Lemma wp_self_words (Q : res (dict (list Sequence)) -> World -> Prop) w :
  Q (Ret (all_word_sequences w)) w -> wp self_words Q w.
Proof. exact (fun H => H). Qed.

Lemma wp_self_hwords (Q : res (dict Flat) -> World -> Prop) w :
  Q (Ret (all_word_Xlengths w)) w -> wp self_hwords Q w.
Proof. exact (fun H => H). Qed.

Lemma Qltb_lt (x y : Q) : Qltb x y = true <-> (x < y)%Q.
Proof.
  unfold Qltb. rewrite negb_true_iff. split; intro H.
  - apply Qnot_le_lt. intro Hle. apply Qle_bool_iff in Hle. congruence.
  - destruct (Qle_bool y x) eqn:Hb; [| reflexivity].
    apply Qle_bool_iff in Hb. exfalso. exact (Qlt_not_le _ _ H Hb).
Qed.

Lemma Qltb_ge (x y : Q) : Qltb x y = false <-> (y <= x)%Q.
Proof.
  unfold Qltb. rewrite negb_false_iff. apply Qle_bool_iff.
Qed.

Lemma In_py_range (a b n : Z) : In n (py_range a (b + 1)) <-> a <= n <= b.
Proof.
  unfold py_range. rewrite in_map_iff. split.
  - intros (i & <- & Hi). apply in_seq in Hi. lia.
  - intro H. exists (Z.to_nat (n - a)). split; [lia |]. apply in_seq. lia.
Qed.

(** A loop that records the turns it has taken. *)
Lemma wp_for_each_prefix {S A : Type} (I : list A -> S -> Prop) (body : A -> M S unit) :
  forall xs pre,
  (forall done x s, I done s -> In x xs ->
     wp (body x) (fun r s' => r = Ret tt /\ I (done ++ [x]) s') s) ->
  forall s, I pre s ->
  wp (for_each xs body) (fun r s' => r = Ret tt /\ I (pre ++ xs) s') s.
Proof.
  induction xs as [| x xs IH]; intros pre Hbody s Hs.
  - rewrite app_nil_r. split; [reflexivity | exact Hs].
  - simpl. apply wp_bind.
    eapply wp_mono; [| apply (Hbody pre x s Hs (or_introl eq_refl))].
    intros r s' [-> Hs'].
    replace (pre ++ x :: xs) with ((pre ++ [x]) ++ xs) by (rewrite <- app_assoc; reflexivity).
    apply IH; [| exact Hs'].
    intros done y t Ht Hy. apply Hbody; [exact Ht | right; exact Hy].
Qed.

Ltac wp_step :=
  lazymatch goal with
  | |- wp (ret _) _ _ => apply wp_ret
  | |- wp (raise _) _ _ => apply wp_raise
  | |- wp (lift _) _ _ => apply wp_lift
  | |- wp (bind _ _) _ _ => apply wp_bind
  | |- wp (try_except _ _) _ _ => apply wp_try
  | |- wp (in_world _) _ _ => apply wp_in_world
  | |- wp locals _ _ => apply wp_locals
  | |- wp (assign _) _ _ => apply wp_assign
  | |- wp (print _) _ _ => apply wp_print; intros ? ?
  | |- wp (filterwarnings _ _) _ _ => apply wp_filterwarnings; intros ? ?
  | |- wp self_words _ _ => apply wp_self_words
  | |- wp self_hwords _ _ => apply wp_self_hwords
  end; cbn beta iota delta [fst snd].

Ltac wp_steps := repeat wp_step.

(** Reading a variable of a frame after assignments, and nothing more. *)
Ltac frame_simpl :=
  cbn beta iota delta
    [fst snd best_score best_score_so_far best_model_so_far best_number_of_components
     model score sum_log_likelihood count_log_likelihood number_of_words
     accumulated_log_likelihood_of_all_words_except_i
     set_best_score set_best_score_so_far set_best_model_so_far
     set_best_number_of_components set_model set_score set_sum_log_likelihood
     set_count_log_likelihood set_number_of_words set_accumulated
     score_of read_model first_row] in *.

(** Closing a postcondition: equations between frames and dictionaries. *)
Ltac wp_done := frame_simpl; repeat split; try reflexivity; try congruence; auto.

Section Results.

Variable E : Externals.

Lemma base_model_result self n w : fst (base_model E self n w) = Ret (fitted E self n).
Proof.
  unfold base_model, fitted, bind, try_except, lift, filterwarnings, print, ret.
  destruct (hmm_fit E (X self) (lengths self) n (random_state self));
    destruct (verbose self); reflexivity.
Qed.

Lemma wp_base_model self n (Q : res (option GaussianHMM) -> World -> Prop) w :
  (forall w', corpus w' = corpus w -> Q (Ret (fitted E self n)) w') ->
  wp (base_model E self n) Q w.
Proof.
  apply wp_world_op; [apply keeps_base_model | apply base_model_result].
Qed.

Lemma fitted_n_components self n m : fitted E self n = Some m -> n_components m = n.
Proof.
  unfold fitted. destruct (hmm_fit E (X self) (lengths self) n (random_state self));
    intro H; inversion H. reflexivity.
Qed.

(** *** SelectorBIC *)

Lemma BIC_candidate_wp self n w f :
  wp (SelectorBIC_candidate E self n)
     (fun r s' =>
        r = Ret tt /\ corpus (fst s') = corpus w /\
        match BIC_outcome E self n with
        | Some (sc, m) =>
            score (snd s') = Some sc /\
            if flt (Fin sc) (best_score f)
            then best_score (snd s') = Fin sc /\ best_model_so_far (snd s') = Some m
            else best_score (snd s') = best_score f /\
                 best_model_so_far (snd s') = best_model_so_far f
        | None =>
            score (snd s') = score f /\
            best_score (snd s') = best_score f /\
            best_model_so_far (snd s') = best_model_so_far f
        end)
     (w, f).
Proof.
  unfold SelectorBIC_candidate, BIC_outcome.
  wp_steps. apply wp_base_model. intros w1 H1. cbn beta iota.
  wp_steps.
  destruct (X self) as [| row rest] eqn:HX; frame_simpl.
  - destruct (fitted E self n); wp_steps; wp_done.
  - wp_steps. destruct (fitted E self n) as [m |]; frame_simpl.
    + destruct (hmm_score E m (row :: rest) (lengths self)) as [logL | e]; frame_simpl.
      * wp_steps. frame_simpl.
        destruct (flt _ (best_score f)) eqn:Hlt; wp_steps; wp_done.
      * wp_steps. wp_done.
    + wp_steps. wp_done.
Qed.

Lemma BIC_best_step self done n f f' :
  BIC_best E self done f ->
  match BIC_outcome E self n with
  | Some (sc, m) =>
      score f' = Some sc /\
      if flt (Fin sc) (best_score f)
      then best_score f' = Fin sc /\ best_model_so_far f' = Some m
      else best_score f' = best_score f /\ best_model_so_far f' = best_model_so_far f
  | None =>
      score f' = score f /\ best_score f' = best_score f /\
      best_model_so_far f' = best_model_so_far f
  end ->
  BIC_best E self (done ++ [n]) f'.
Proof.
  intros Hbest Hstep.
  destruct (BIC_outcome E self n) as [[sc m] |] eqn:Hout.
  - destruct Hstep as [Hsc Hupd].
    destruct Hbest as [(Hnone & Hbs & Hbm & Hs) | (n0 & sc0 & m0 & Hin & Ho & Hbs & Hbm & Hs & Hmin)].
    + rewrite Hbs in Hupd. simpl in Hupd. destruct Hupd as [Hbs' Hbm'].
      right. exists n, sc, m. repeat split; auto.
      * apply in_or_app. right. left. reflexivity.
      * congruence.
      * intros n' sc' m' Hin' Ho'. apply in_app_or in Hin'.
        destruct Hin' as [Hin' | [<- | []]].
        -- rewrite (Hnone n' Hin') in Ho'. discriminate.
        -- rewrite Hout in Ho'. inversion Ho'. apply Qle_refl.
    + rewrite Hbs in Hupd. simpl in Hupd.
      destruct (Qltb sc sc0) eqn:Hlt.
      * destruct Hupd as [Hbs' Hbm']. apply Qltb_lt in Hlt.
        right. exists n, sc, m. repeat split; auto.
        -- apply in_or_app. right. left. reflexivity.
        -- congruence.
        -- intros n' sc' m' Hin' Ho'. apply in_app_or in Hin'.
           destruct Hin' as [Hin' | [<- | []]].
           ++ apply Qle_trans with sc0; [apply Qlt_le_weak; exact Hlt |].
              exact (Hmin n' sc' m' Hin' Ho').
           ++ rewrite Hout in Ho'. inversion Ho'. apply Qle_refl.
      * destruct Hupd as [Hbs' Hbm']. apply Qltb_ge in Hlt.
        right. exists n0, sc0, m0. repeat split; try congruence.
        -- apply in_or_app. left. exact Hin.
        -- intros n' sc' m' Hin' Ho'. apply in_app_or in Hin'.
           destruct Hin' as [Hin' | [<- | []]].
           ++ exact (Hmin n' sc' m' Hin' Ho').
           ++ rewrite Hout in Ho'. inversion Ho'. subst. exact Hlt.
  - destruct Hstep as (Hs' & Hbs' & Hbm').
    destruct Hbest as [(Hnone & Hbs & Hbm & Hs) | (n0 & sc0 & m0 & Hin & Ho & Hbs & Hbm & Hs & Hmin)].
    + left. repeat split; try congruence.
      intros n' Hin'. apply in_app_or in Hin'.
      destruct Hin' as [Hin' | [<- | []]]; auto.
    + right. exists n0, sc0, m0. repeat split; try congruence.
      * apply in_or_app. left. exact Hin.
      * intros n' sc' m' Hin' Ho'. apply in_app_or in Hin'.
        destruct Hin' as [Hin' | [<- | []]].
        -- exact (Hmin n' sc' m' Hin' Ho').
        -- rewrite Hout in Ho'. discriminate.
Qed.

Lemma BIC_loop_wp self w xs s :
  corpus (fst s) = corpus w -> snd s = fresh_frame ->
  wp (for_each xs (SelectorBIC_candidate E self))
     (fun r s' => r = Ret tt /\ corpus (fst s') = corpus w /\ BIC_best E self xs (snd s'))
     s.
Proof.
  intros Hc Hf.
  pose (I := fun (done : list Z) (t : World * Frame) =>
               corpus (fst t) = corpus w /\ BIC_best E self done (snd t)).
  change (wp (for_each xs (SelectorBIC_candidate E self))
            (fun r s' => r = Ret tt /\ I ([] ++ xs) s') s).
  apply wp_for_each_prefix.
  - intros done n [w1 f1] [Hc1 Hb1] _. simpl in Hc1, Hb1.
    eapply wp_mono; [| apply (BIC_candidate_wp self n w1 f1)].
    intros r [w2 f2] (-> & Hc2 & Hstep). simpl in *.
    split; [reflexivity |]. split; [simpl; congruence |].
    simpl. eapply BIC_best_step; eauto.
  - split; [exact Hc |]. rewrite Hf. left. repeat split. intros n [].
Qed.

Lemma BIC_body_wp self w :
  wp (SelectorBIC_select E self)
     (fun r s' =>
        corpus (fst s') = corpus w /\
        BIC_best E self (py_range (min_n_components self) (max_n_components self + 1)) (snd s') /\
        r = Ret (match best_model_so_far (snd s') with
                 | Some m => Some m
                 | None => fitted E self (n_constant self)
                 end))
     (w, fresh_frame).
Proof.
  unfold SelectorBIC_select. wp_steps.
  eapply wp_mono; [| apply (BIC_loop_wp self w); [exact H | reflexivity]].
  intros r [w1 f1] (-> & Hc & Hb). simpl in Hc, Hb. wp_steps.
  destruct (best_model_so_far f1) as [m |] eqn:Hm.
  - wp_steps. rewrite Hm. auto.
  - wp_steps. apply wp_base_model. intros w2 H2. frame_simpl. rewrite Hm.
    repeat split; auto. congruence.
Qed.

(** [select] through its body. *)
Lemma select_via_body strategy self w (Q : res (option GaussianHMM) -> Frame -> Prop) :
  wp (select_body E strategy self) (fun r s' => Q r (snd s')) (w, fresh_frame) ->
  Q (fst (select E strategy self w)) (frame_after E strategy self w).
Proof.
  unfold wp, select, frame_after, with_frame, bind, ret.
  destruct (select_body E strategy self (w, fresh_frame)) as [[a | e] [w' l]]; simpl; auto.
Qed.

(** *** SelectorCV *)

Lemma CV_fold_wp self n w f fold s :
  CV_fold_inv E self n w f s ->
  wp (SelectorCV_fold E self n fold) (fun _ s' => CV_fold_inv E self n w f s') s.
Proof.
  intros (Hc & Hs & Hb & Hm). unfold SelectorCV_fold. destruct s as [w0 f0].
  frame_simpl. wp_steps.
  destruct (combine_sequences E (fst fold) (sequences self)) as [xl | e]; frame_simpl.
  - wp_steps. apply wp_base_model. intros w1 H1. frame_simpl. wp_steps.
    destruct (fitted E self n) as [m |] eqn:Hfit; frame_simpl.
    + destruct (hmm_score E m (fst xl) (snd xl)) as [logL | e]; frame_simpl; wp_steps.
      * unfold CV_fold_inv. frame_simpl. repeat split; try congruence.
        right. split; congruence.
      * unfold CV_fold_inv. frame_simpl. repeat split; try congruence.
        right. split; congruence.
    + wp_steps. unfold CV_fold_inv. frame_simpl. repeat split; try congruence.
      destruct Hm as [Hm | [_ Hm]]; [left; exact Hm | congruence].
  - unfold CV_fold_inv. frame_simpl. auto.
Qed.

Lemma CV_candidate_wp self n w f :
  wp (SelectorCV_candidate E self n)
     (fun r s' => r = Ret tt /\ CV_candidate_post E self n w f s') (w, f).
Proof.
  unfold SelectorCV_candidate. wp_steps.
  destruct (kfold_split E (sequences self)) as [folds | e]; frame_simpl.
  - wp_steps.
    eapply wp_mono;
      [| apply (wp_for_each_any (CV_fold_inv E self n w f)); [intros; apply CV_fold_wp; assumption |]].
    + intros r [w1 f1] (Hc & Hs & Hb & Hm). frame_simpl.
      destruct r as [[] | e]; wp_steps.
      * unfold py_div. destruct (count_log_likelihood f1 =? 0) eqn:Hcount; frame_simpl.
        -- wp_steps. unfold CV_candidate_post. frame_simpl.
           repeat split; try congruence. left. auto.
        -- apply Z.eqb_neq in Hcount.
           destruct Hm as [Hm | [Hm Hfit]]; [contradiction |].
           destruct (fitted E self n) as [m |] eqn:Hfn; [| congruence].
           wp_steps.
           destruct (flt (best_score_so_far f1) _); wp_steps.
           ++ unfold read_model. rewrite Hm. wp_steps. unfold CV_candidate_post. frame_simpl.
              repeat split; try congruence. right. split; [discriminate |].
              right. exists m. auto.
           ++ unfold CV_candidate_post. frame_simpl.
              repeat split; try congruence. right. split; [discriminate | left; exact Hb].
      * unfold CV_candidate_post. frame_simpl. repeat split; try congruence. left. auto.
    + unfold CV_fold_inv. frame_simpl. auto.
  - wp_steps. unfold CV_candidate_post. frame_simpl. auto.
Qed.

(** *** The constructor *)

Lemma init_run word nc mn mx rs vb w :
  ModelSelector_init word nc mn mx rs vb w = (init_value w word nc mn mx rs vb, w).
Proof.
  unfold ModelSelector_init, init_value, bind, self_words, self_hwords, lift, ret.
  destruct (dict_get (all_word_sequences w) word); [| reflexivity].
  destruct (dict_get (all_word_Xlengths w) word); reflexivity.
Qed.

Lemma wp_init word nc mn mx rs vb (Q : res ModelSelector -> World -> Prop) w :
  Q (init_value w word nc mn mx rs vb) w ->
  wp (ModelSelector_init word nc mn mx rs vb) Q w.
Proof. unfold wp. rewrite init_run. exact (fun H => H). Qed.

(** *** SelectorDIC *)

Lemma DIC_word_wp self n li word w f s :
  DIC_word_inv n w f s ->
  wp (SelectorDIC_word E self n li word) (fun _ s' => DIC_word_inv n w f s') s.
Proof.
  intros (Hc & Hinv). destruct s as [w0 f0]. frame_simpl.
  unfold SelectorDIC_word. apply wp_bind.
  apply (wp_mono _
           (fun r s' => r = Ret tt /\ corpus (fst s') = corpus w /\
                        score (snd s') = score f0 /\
                        best_score_so_far (snd s') = best_score_so_far f0 /\
                        best_number_of_components (snd s') = best_number_of_components f0)).
  - intros r [w1 f1] (-> & Hc1 & Hs1 & Hbs1 & Hbn1). frame_simpl. wp_steps.
    unfold py_div. destruct (number_of_words f1 - 1 =? 0); frame_simpl.
    + unfold DIC_word_inv. frame_simpl. split; [exact Hc1 |].
      rewrite Hs1, Hbn1. exact Hinv.
    + wp_steps. destruct (flt (best_score_so_far f1) _); wp_steps;
        unfold DIC_word_inv; frame_simpl; (split; [exact Hc1 |]);
        right; (split; [intro Hnone; discriminate Hnone |]).
      * right. reflexivity.
      * rewrite Hbn1. destruct Hinv as [[_ H] | [_ H]]; [left; exact H | exact H].
  - wp_steps. apply wp_init. frame_simpl.
    destruct (init_value w0 word _ _ _ _ _) as [sel | e]; frame_simpl.
    + wp_steps. apply wp_base_model. intros w1 H1. frame_simpl. wp_steps.
      destruct (fitted E sel n) as [m |]; frame_simpl.
      * destruct (hmm_score E m (X sel) (lengths sel)); frame_simpl; wp_steps; wp_done.
      * wp_steps. wp_done.
    + wp_steps. wp_done.
Qed.

Lemma DIC_candidate_wp self n w f :
  wp (SelectorDIC_candidate E self n)
     (fun r s' => r = Ret tt /\ DIC_candidate_post E self n w f s') (w, f).
Proof.
  unfold SelectorDIC_candidate. wp_steps. apply wp_base_model. intros w1 H1.
  frame_simpl. wp_steps.
  destruct (fitted E self n) as [m |] eqn:Hfit; frame_simpl.
  - destruct (hmm_score E m (X self) (lengths self)) as [li | e]; frame_simpl.
    + wp_steps.
      destruct (list_remove (this_word self) (dict_keys (all_word_sequences w1)))
        as [ws | e]; frame_simpl.
      * wp_steps.
        eapply wp_mono;
          [| apply (wp_for_each_any (DIC_word_inv n w f));
             [intros; apply DIC_word_wp; assumption |]].
        -- intros r [w2 f2] (Hc & Hinv). frame_simpl.
           assert (Hpost : DIC_candidate_post E self n w f (w2, f2)).
           { unfold DIC_candidate_post. frame_simpl. split; [exact Hc |].
             destruct Hinv as [H | [Hs [H | H]]]; [left; exact H | |].
             - right. split; [exact Hs | left; exact H].
             - right. split; [exact Hs | right]. split; [exact H | rewrite Hfit; discriminate]. }
           destruct r as [[] | e]; [auto |].
           wp_steps. split; [reflexivity |].
           destruct Hpost as [Hc2 Hrest]. split; [frame_simpl; congruence | exact Hrest].
        -- unfold DIC_word_inv. frame_simpl. auto.
      * wp_steps. unfold DIC_candidate_post. wp_done.
    + wp_steps. unfold DIC_candidate_post. wp_done.
  - wp_steps. unfold DIC_candidate_post. wp_done.
Qed.

(** *** All strategies: what [select] returns *)

Lemma BIC_outcome_fitted self n sc m :
  BIC_outcome E self n = Some (sc, m) -> fitted E self n = Some m.
Proof.
  unfold BIC_outcome. destruct (fitted E self n) as [m0 |]; [| discriminate].
  destruct (X self); [discriminate |].
  destruct (hmm_score E m0 _ _); [| discriminate].
  intro H. inversion H. reflexivity.
Qed.

Lemma Constant_select_post self w :
  wp (SelectorConstant_select E self) (fun r s' => select_post E self r (snd s')) (w, fresh_frame).
Proof.
  unfold SelectorConstant_select. wp_steps. apply wp_base_model. intros w1 H1.
  exists (fitted E self (n_constant self)). auto.
Qed.

Lemma BIC_select_post self w :
  wp (SelectorBIC_select E self) (fun r s' => select_post E self r (snd s')) (w, fresh_frame).
Proof.
  eapply wp_mono; [| apply (BIC_body_wp self w)].
  intros r [w1 f1] (_ & Hbest & ->). frame_simpl.
  destruct Hbest as [(_ & _ & Hbm & _) | (n & sc & m & Hin & Ho & _ & Hbm & Hs & _)];
    rewrite Hbm.
  - eexists. split; [reflexivity |]. auto.
  - eexists. split; [reflexivity |]. split; [| intro; contradiction].
    right. exists n, m. apply In_py_range in Hin.
    split; [exact Hin |]. split; [| reflexivity]. exact (BIC_outcome_fitted _ _ _ _ Ho).
Qed.

Lemma CV_loop_wp self w xs s :
  corpus (fst s) = corpus w -> CV_found E self xs (snd s) ->
  wp (for_each xs (SelectorCV_candidate E self))
     (fun r s' => r = Ret tt /\ corpus (fst s') = corpus w /\ CV_found E self xs (snd s')) s.
Proof.
  intros Hc Hf.
  apply (wp_for_each (fun t => corpus (fst t) = corpus w /\ CV_found E self xs (snd t)));
    [| auto].
  intros n [w1 f1] Hin [Hc1 [Hnone Hsome]]. frame_simpl.
  eapply wp_mono; [| apply (CV_candidate_wp self n w1 f1)].
  intros r [w2 f2] (-> & Hc2 & Hpost). frame_simpl.
  split; [reflexivity |]. split; [congruence |].
  destruct Hpost as [[Hs Hb] | [Hs [Hb | (m & Hb & Hfit)]]]; split.
  - rewrite Hs, Hb. exact Hnone.
  - rewrite Hb. exact Hsome.
  - intro; contradiction.
  - rewrite Hb. exact Hsome.
  - intro; contradiction.
  - intros m' Hm'. rewrite Hb in Hm'. inversion Hm'. subst m'. exists n. auto.
Qed.

Lemma CV_select_post self w :
  wp (SelectorCV_select E self) (fun r s' => select_post E self r (snd s')) (w, fresh_frame).
Proof.
  unfold SelectorCV_select. wp_steps.
  eapply wp_mono; [| apply (CV_loop_wp self w)]; frame_simpl.
  - intros r [w1 f1] (-> & Hc & Hnone & Hsome). frame_simpl. wp_steps.
    destruct (best_model_so_far f1) as [m |] eqn:Hm.
    + wp_steps. eexists. split; [reflexivity |]. split.
      * right. destruct (Hsome m eq_refl) as (n & Hin & Hfit).
        exists n, m. apply In_py_range in Hin. auto.
      * intro Hs. specialize (Hnone Hs). discriminate.
    + wp_steps. apply wp_base_model. intros w2 H2. frame_simpl.
      eexists. split; [reflexivity |]. auto.
  - exact H.
  - split; [reflexivity |]. intros m Hm. discriminate.
Qed.

Lemma DIC_loop_wp self w xs s :
  corpus (fst s) = corpus w -> DIC_found E self xs (snd s) ->
  wp (for_each xs (SelectorDIC_candidate E self))
     (fun r s' => r = Ret tt /\ corpus (fst s') = corpus w /\ DIC_found E self xs (snd s')) s.
Proof.
  intros Hc Hf.
  apply (wp_for_each (fun t => corpus (fst t) = corpus w /\ DIC_found E self xs (snd t)));
    [| auto].
  intros n [w1 f1] Hin [Hc1 [Hnone Hsome]]. frame_simpl.
  eapply wp_mono; [| apply (DIC_candidate_wp self n w1 f1)].
  intros r [w2 f2] (-> & Hc2 & Hpost). frame_simpl.
  split; [reflexivity |]. split; [congruence |].
  destruct Hpost as [[Hs Hb] | [Hs [Hb | (Hb & Hfit)]]]; split.
  - rewrite Hs, Hb. exact Hnone.
  - rewrite Hb. exact Hsome.
  - intro; contradiction.
  - rewrite Hb. exact Hsome.
  - intro; contradiction.
  - right. rewrite Hb. auto.
Qed.

Lemma DIC_select_post self w :
  wp (SelectorDIC_select E self) (fun r s' => select_post E self r (snd s')) (w, fresh_frame).
Proof.
  unfold SelectorDIC_select. wp_steps.
  eapply wp_mono; [| apply (DIC_loop_wp self w)]; frame_simpl.
  - intros r [w1 f1] (-> & Hc & Hnone & Hsome). frame_simpl. wp_steps.
    destruct (best_number_of_components f1 =? 0) eqn:Hz.
    + wp_steps. apply wp_base_model. intros w2 H2. frame_simpl.
      eexists. split; [reflexivity |]. auto.
    + apply Z.eqb_neq in Hz. wp_steps. apply wp_base_model. intros w2 H2. frame_simpl.
      destruct Hsome as [Hsome | [Hin Hfit]]; [contradiction |].
      destruct (fitted E self (best_number_of_components f1)) as [m |] eqn:Hm;
        [| contradiction].
      eexists. split; [reflexivity |]. split.
      * right. exists (best_number_of_components f1), m.
        apply In_py_range in Hin. auto.
      * intro Hs. specialize (Hnone Hs). contradiction.
  - exact H.
  - split; [reflexivity |]. left. reflexivity.
Qed.

Lemma select_body_post strategy self w :
  wp (select_body E strategy self) (fun r s' => select_post E self r (snd s')) (w, fresh_frame).
Proof.
  destruct strategy; simpl.
  - apply Constant_select_post.
  - apply BIC_select_post.
  - apply DIC_select_post.
  - apply CV_select_post.
Qed.

Lemma select_result strategy self w :
  select_post E self (fst (select E strategy self w)) (frame_after E strategy self w).
Proof.
  apply (select_via_body strategy self w (select_post E self)).
  apply select_body_post.
Qed.

(** *** SelectorDIC when every fit succeeds *)

Lemma DIC_other_score_corpus self n w w' word :
  corpus w' = corpus w -> DIC_other_score E self n w' word = DIC_other_score E self n w word.
Proof.
  intro H. unfold DIC_other_score, init_value.
  pose proof (f_equal fst H) as H1. pose proof (f_equal snd H) as H2. simpl in H1, H2.
  rewrite H1, H2. reflexivity.
Qed.

Lemma sum_of_snoc ll done word : sum_of ll (done ++ [word]) = (sum_of ll done + ll word)%Q.
Proof. unfold sum_of. rewrite fold_left_app. reflexivity. Qed.

Lemma DIC_word_ok self n li word w0 f0 q :
  DIC_other_score E self n w0 word = Ret q ->
  number_of_words f0 - 1 <> 0 ->
  wp (SelectorDIC_word E self n li word)
     (fun r s' =>
        r = Ret tt /\ corpus (fst s') = corpus w0 /\
        let acc := (accumulated_log_likelihood_of_all_words_except_i f0 + q)%Q in
        let sc := (li - acc / inject_Z (number_of_words f0 - 1))%Q in
        accumulated_log_likelihood_of_all_words_except_i (snd s') = acc /\
        number_of_words (snd s') = number_of_words f0 /\
        score (snd s') = Some sc /\
        if flt (best_score_so_far f0) (Fin sc)
        then best_score_so_far (snd s') = Fin sc /\
             best_number_of_components (snd s') = n
        else best_score_so_far (snd s') = best_score_so_far f0 /\
             best_number_of_components (snd s') = best_number_of_components f0)
     (w0, f0).
Proof.
  intros Hq Hd. unfold DIC_other_score in Hq.
  unfold SelectorDIC_word. wp_steps. apply wp_init. frame_simpl.
  destruct (init_value w0 word _ _ _ _ _) as [sel | e]; [| discriminate].
  frame_simpl. wp_steps. apply wp_base_model. intros w1 H1. frame_simpl. wp_steps.
  unfold score_of in *. rewrite Hq. frame_simpl. wp_steps.
  unfold py_div. frame_simpl. apply Z.eqb_neq in Hd. rewrite Hd. frame_simpl. wp_steps.
  destruct (flt (best_score_so_far f0) _); wp_steps; wp_done.
Qed.

Lemma DIC_ok_loop self n li ll nw w f others s :
  nw - 1 <> 0 ->
  (forall word, In word others -> DIC_other_score E self n w word = Ret (ll word)) ->
  DIC_ok_inv n li ll nw w f [] s ->
  wp (for_each others (SelectorDIC_word E self n li))
     (fun r s' => r = Ret tt /\ DIC_ok_inv n li ll nw w f ([] ++ others) s') s.
Proof.
  intros Hnw Hall Hs.
  apply (wp_for_each_prefix (DIC_ok_inv n li ll nw w f)); [| exact Hs].
  intros done word [w1 f1] (Hc & Hacc & Hn & Hs0 & Hs1 & Hbest) Hin. frame_simpl.
  eapply wp_mono; [| apply (DIC_word_ok self n li word w1 f1 (ll word))].
  - intros r [w2 f2] (-> & Hc2 & Hacc2 & Hn2 & Hsc2 & Hupd). frame_simpl.
    split; [reflexivity |]. unfold DIC_ok_inv. frame_simpl.
    rewrite sum_of_snoc.
    assert (Hne : done ++ [word] <> []) by (destruct done; discriminate).
    split; [congruence |]. split; [congruence |]. split; [congruence |].
    split; [intro; contradiction |]. split; [intros _; congruence |].
    destruct (flt (best_score_so_far f1) _) eqn:Hlt; destruct Hupd as [Hbs Hbn].
    + left. split; [exact Hbn | rewrite Hbs; discriminate].
    + destruct Hbest as [[Hb1 Hb2] | (Hb1 & Hb2 & Hb3)].
      * left. split; congruence.
      * right. split; [congruence |]. split; [congruence |]. intros _.
        rewrite <- Hb2. intro Hinf. rewrite Hinf in Hlt. discriminate.
  - rewrite (DIC_other_score_corpus self n w w1 word Hc). apply Hall. exact Hin.
  - rewrite Hn. exact Hnw.
Qed.

Lemma list_remove_length x xs ys :
  list_remove x xs = Ret ys -> len xs - 1 = len ys.
Proof.
  unfold len. revert ys. induction xs as [| y xs IH]; intros ys H; simpl in H.
  - discriminate.
  - destruct (String.eqb y x).
    + inversion H. subst. cbn [List.length]. lia.
    + destruct (list_remove x xs) as [ys' |]; [| discriminate].
      inversion H. subst. specialize (IH ys' eq_refl). cbn [List.length]. lia.
Qed.

(** One candidate when the own fit and every other word's fit succeed and
    there is another word. *)
Lemma DIC_candidate_ok self n w f m li others ll :
  fitted E self n = Some m ->
  hmm_score E m (X self) (lengths self) = Ret li ->
  list_remove (this_word self) (dict_keys (all_word_sequences w)) = Ret others ->
  others <> [] ->
  (forall word, In word others -> DIC_other_score E self n w word = Ret (ll word)) ->
  wp (SelectorDIC_candidate E self n)
     (fun r s' =>
        r = Ret tt /\ corpus (fst s') = corpus w /\
        score (snd s') = Some (li - sum_of ll others / inject_Z (len others))%Q /\
        best_score_so_far (snd s') <> NInf /\
        (best_number_of_components (snd s') = n \/
         (best_number_of_components (snd s') = best_number_of_components f /\
          best_score_so_far f <> NInf)))
     (w, f).
Proof.
  intros Hfit Hli Hrem Hne Hall.
  unfold SelectorDIC_candidate. wp_steps. apply wp_base_model. intros w1 H1.
  frame_simpl. wp_steps. rewrite Hfit. frame_simpl. rewrite Hli. frame_simpl. wp_steps.
  assert (Hk : all_word_sequences w1 = all_word_sequences w)
    by exact (f_equal fst H1).
  rewrite Hk, Hrem. frame_simpl. wp_steps.
  pose proof (list_remove_length _ _ _ Hrem) as Hlen.
  assert (Hnw : len (dict_keys (all_word_sequences w)) - 1 <> 0).
  { rewrite Hlen. unfold len. destruct others; [contradiction | cbn [List.length]; lia]. }
  eapply wp_mono;
    [| apply (DIC_ok_loop self n li ll (len (dict_keys (all_word_sequences w))) w f others);
       [exact Hnw | exact Hall |]].
  - intros r [w2 f2] (-> & Hc & _ & _ & _ & Hsc & Hbest). frame_simpl.
    split; [reflexivity |]. split; [exact Hc |].
    specialize (Hsc Hne). rewrite Hlen in Hsc. split; [exact Hsc |].
    destruct Hbest as [[Hb1 Hb2] | (Hb1 & Hb2 & Hb3)].
    + split; [exact Hb2 | left; exact Hb1].
    + specialize (Hb3 Hne). split; [congruence | right; auto].
  - unfold DIC_ok_inv. frame_simpl. split; [exact H1 |].
    split; [reflexivity |]. split; [reflexivity |]. split; [reflexivity |].
    split; [intro Hnil; contradiction |]. right. auto.
Qed.

Lemma all_fit_at_own self w others n li ll :
  all_fit_at E self w others n li ll ->
  exists m, fitted E self n = Some m /\ hmm_score E m (X self) (lengths self) = Ret li.
Proof.
  intros [(m & Hm & Hs) _]. rewrite base_model_result in Hm. inversion Hm.
  exists m. auto.
Qed.

Lemma all_fit_at_others self w others n li ll :
  all_fit_at E self w others n li ll ->
  forall word, In word others -> DIC_other_score E self n w word = Ret (ll word).
Proof.
  intros [_ H] word Hin. destruct (H word Hin) as (sel & m & Hsel & Hm & Hs).
  rewrite init_run in Hsel. simpl in Hsel.
  rewrite base_model_result in Hm. inversion Hm as [Hfit].
  unfold DIC_other_score. rewrite Hsel, Hfit. exact Hs.
Qed.

(** The sweep when every fit succeeds at every candidate: afterwards a
    candidate of the range is recorded as best. *)
Lemma DIC_ok_sweep self w others xs s :
  list_remove (this_word self) (dict_keys (all_word_sequences w)) = Ret others ->
  others <> [] ->
  (forall n, In n xs -> exists li ll, all_fit_at E self w others n li ll) ->
  corpus (fst s) = corpus w -> best_score_so_far (snd s) = NInf ->
  wp (for_each xs (SelectorDIC_candidate E self))
     (fun r s' =>
        r = Ret tt /\ corpus (fst s') = corpus w /\
        (xs <> [] -> In (best_number_of_components (snd s')) xs))
     s.
Proof.
  intros Hrem Hne Hall Hc Hinf.
  pose (I := fun (done : list Z) (t : World * Frame) =>
               corpus (fst t) = corpus w /\
               (done <> [] -> best_score_so_far (snd t) <> NInf) /\
               (best_score_so_far (snd t) <> NInf ->
                In (best_number_of_components (snd t)) done)).
  apply (wp_mono _ (fun r s' => r = Ret tt /\ I ([] ++ xs) s')).
  - intros r s' (-> & Hc' & H1 & H2). simpl in H1, H2. auto.
  - apply wp_for_each_prefix.
    + intros done n [w1 f1] (Hc1 & Hd1 & Hb1) Hin. frame_simpl.
      destruct (Hall n Hin) as (li & ll & Hfit).
      destruct (all_fit_at_own _ _ _ _ _ _ Hfit) as (m & Hm & Hli).
      pose proof (all_fit_at_others _ _ _ _ _ _ Hfit) as Hoth.
      assert (Hk : all_word_sequences w1 = all_word_sequences w)
        by exact (f_equal fst Hc1).
      eapply wp_mono;
        [| apply (DIC_candidate_ok self n w1 f1 m li others ll Hm Hli);
           [rewrite Hk; exact Hrem | exact Hne |]].
      * intros r [w2 f2] (-> & Hc2 & _ & Hbs & Hbn). frame_simpl.
        split; [reflexivity |]. unfold I. frame_simpl.
        split; [congruence |]. split; [intros _; exact Hbs |]. intros _.
        apply in_or_app. destruct Hbn as [-> | [-> Hold]].
        -- right. left. reflexivity.
        -- left. exact (Hb1 Hold).
      * intros word Hw. rewrite (DIC_other_score_corpus self n w w1 word Hc1).
        exact (Hoth word Hw).
    + unfold I. split; [exact Hc |]. split; [intro Hx; contradiction |].
      intro Hx. contradiction.
Qed.

Lemma DIC_ok_select self w others :
  list_remove (this_word self) (dict_keys (all_word_sequences w)) = Ret others ->
  others <> [] ->
  min_n_components self <= max_n_components self ->
  ~ (min_n_components self <= 0 <= max_n_components self) ->
  (forall n, min_n_components self <= n <= max_n_components self ->
     exists li ll, all_fit_at E self w others n li ll) ->
  exists n m,
    min_n_components self <= n <= max_n_components self /\
    fitted E self n = Some m /\
    fst (select E DIC self w) = Ret (Some m).
Proof.
  intros Hrem Hne Hle Hzero Hall.
  apply (select_via_body DIC self w
           (fun r _ => exists n m,
                min_n_components self <= n <= max_n_components self /\
                fitted E self n = Some m /\ r = Ret (Some m))).
  simpl. unfold SelectorDIC_select. wp_steps.
  eapply wp_mono;
    [| apply (DIC_ok_sweep self w others _ (w', fresh_frame) Hrem Hne);
       [| exact H | reflexivity]].
  - intros r [w1 f1] (-> & Hc & Hin). frame_simpl. wp_steps.
    assert (Hr : In (best_number_of_components f1)
                    (py_range (min_n_components self) (max_n_components self + 1))).
    { apply Hin. intro Hnil.
      assert (Hmin : In (min_n_components self)
                        (py_range (min_n_components self) (max_n_components self + 1)))
        by (apply In_py_range; lia).
      rewrite Hnil in Hmin. contradiction. }
    apply In_py_range in Hr.
    destruct (best_number_of_components f1 =? 0) eqn:Hz.
    + apply Z.eqb_eq in Hz. rewrite Hz in Hr. contradiction.
    + wp_steps. apply wp_base_model. intros w2 H2. frame_simpl.
      destruct (Hall _ Hr) as (li & ll & Hfit).
      destruct (all_fit_at_own _ _ _ _ _ _ Hfit) as (m & Hm & _).
      exists (best_number_of_components f1), m. rewrite Hm. auto.
  - intros n Hn. apply Hall. apply In_py_range. exact Hn.
Qed.

(** *** The score of one candidate *)

Lemma BIC_score_outcome self n w :
  BIC_score E self n w = option_map fst (BIC_outcome E self n).
Proof.
  unfold BIC_score.
  pose proof (BIC_candidate_wp self n w fresh_frame) as H. unfold wp in H.
  destruct H as (_ & _ & H).
  destruct (BIC_outcome E self n) as [[sc m] |]; simpl.
  - destruct H as [H _]. exact H.
  - destruct H as [H _]. exact H.
Qed.

End Results.

(* ================================================================== *)
(** ** Properties of the selectors *)

Section Properties.

Variable E : Externals.

(** C1 (as amended).  For every strategy [select()] returns without
    raising, and what it returns is a fitted model or [None].  When no
    candidate of the range gets a score computed (the local [score] is
    never assigned) it returns what [base_model(n_constant)] returns: the
    model fitted with [n_constant] states, or [None] when that fit fails.
    [None] is returned only when the fit with [n_constant] states fails;
    that failure is not raised to the caller. *)
Theorem select_returns_model_or_None (strategy : Strategy) (self : ModelSelector) (w : World) :
  exists r : option GaussianHMM,
    fst (select E strategy self w) = Ret r /\
    (score (frame_after E strategy self w) = None ->
     fst (base_model E self (n_constant self) w) = Ret r) /\
    (r = None -> fst (base_model E self (n_constant self) w) = Ret None).
Proof.
  destruct (select_result E strategy self w) as (r & Hr & Hwhich & Hnone).
  exists r. split; [exact Hr |]. rewrite base_model_result. split.
  - intro Hs. rewrite (Hnone Hs). reflexivity.
  - intros ->. destruct Hwhich as [H | (n & m & _ & _ & H)]; [| discriminate].
    rewrite <- H. reflexivity.
Qed.

(** C5.  In SelectorBIC, a candidate [n] whose fit and score succeed gets
    the score [-2*logL + p*log(N)] with [p = n*(n-1) + 2*D*n], [D] the
    length of the first observation row and [N] the number of rows; a
    candidate whose fit fails gets no score; if some candidate of
    [[min_n_components, max_n_components]] has a score, the model returned
    is the one fitted at a candidate of the range whose score is least
    among the scored candidates; if none has, [base_model(n_constant)] is
    returned. *)
Theorem SelectorBIC_minimum_score (self : ModelSelector) (w : World) :
  (forall n params row rest logL,
      hmm_fit E (X self) (lengths self) n (random_state self) = Ret params ->
      X self = row :: rest ->
      hmm_score E {| n_components := n;
                     hmm_random_state := random_state self;
                     fitted_params := params |} (X self) (lengths self) = Ret logL ->
      BIC_score E self n w =
      Some (-2 * logL
            + inject_Z (n * (n - 1) + 2 * len row * n) * np_log E (len (X self)))%Q)
  /\
  (forall n e,
      hmm_fit E (X self) (lengths self) n (random_state self) = Raise e ->
      BIC_score E self n w = None)
  /\
  (forall n0,
      min_n_components self <= n0 <= max_n_components self ->
      BIC_score E self n0 w <> None ->
      exists n q m,
        min_n_components self <= n <= max_n_components self /\
        BIC_score E self n w = Some q /\
        fst (base_model E self n w) = Ret (Some m) /\
        fst (select E BIC self w) = Ret (Some m) /\
        forall n' q',
          min_n_components self <= n' <= max_n_components self ->
          BIC_score E self n' w = Some q' -> (q <= q')%Q)
  /\
  ((forall n, min_n_components self <= n <= max_n_components self ->
              BIC_score E self n w = None) ->
   fst (select E BIC self w) = fst (base_model E self (n_constant self) w)).
Proof.
  assert (Hsel :
    BIC_best E self (py_range (min_n_components self) (max_n_components self + 1))
      (frame_after E BIC self w) /\
    fst (select E BIC self w) =
    Ret (match best_model_so_far (frame_after E BIC self w) with
         | Some m => Some m
         | None => fitted E self (n_constant self)
         end)).
  { apply (select_via_body E BIC self w
             (fun r f =>
                BIC_best E self
                  (py_range (min_n_components self) (max_n_components self + 1)) f /\
                r = Ret (match best_model_so_far f with
                         | Some m => Some m
                         | None => fitted E self (n_constant self)
                         end))).
    eapply wp_mono; [| apply (BIC_body_wp E self w)].
    intros r s' (_ & Hb & Hr). auto. }
  destruct Hsel as [Hbest Hres].
  split; [| split; [| split]].
  - intros n params row rest logL Hfit HX Hscore.
    rewrite BIC_score_outcome. unfold BIC_outcome, fitted.
    rewrite Hfit. rewrite HX in *. rewrite Hscore. reflexivity.
  - intros n e Hfit. rewrite BIC_score_outcome. unfold BIC_outcome, fitted.
    rewrite Hfit. reflexivity.
  - intros n0 Hn0 Hscored.
    destruct Hbest as [(Hnone & _) | (n & sc & m & Hin & Ho & _ & Hbm & _ & Hmin)].
    + exfalso. apply Hscored. rewrite BIC_score_outcome.
      rewrite (Hnone n0); [reflexivity |]. apply In_py_range. exact Hn0.
    + exists n, sc, m. apply In_py_range in Hin.
      split; [exact Hin |]. split; [rewrite BIC_score_outcome, Ho; reflexivity |].
      split; [rewrite base_model_result, (BIC_outcome_fitted E _ _ _ _ Ho); reflexivity |].
      split; [rewrite Hres, Hbm; reflexivity |].
      intros n' q' Hn' Hq'. rewrite BIC_score_outcome in Hq'.
      destruct (BIC_outcome E self n') as [[sc' m'] |] eqn:Ho'; [| discriminate].
      simpl in Hq'. inversion Hq'. subst q'.
      apply (Hmin n' sc' m'); [apply In_py_range; exact Hn' | exact Ho'].
  - intro Hall. rewrite Hres, base_model_result.
    destruct Hbest as [(_ & _ & Hbm & _) | (n & sc & m & Hin & Ho & _)].
    + rewrite Hbm. reflexivity.
    + apply In_py_range in Hin. specialize (Hall n Hin).
      rewrite BIC_score_outcome, Ho in Hall. discriminate.
Qed.

(** C6.  Fallback law: with any strategy, if the fitter fails on the item's
    data for every state count of [[min_n_components, max_n_components]]
    and succeeds for [n_constant], [select()] returns the model fitted with
    [n_constant] states. *)
Theorem fallback_law (strategy : Strategy) (self : ModelSelector) (w : World)
    (params : Matrix) :
  (forall n, min_n_components self <= n <= max_n_components self ->
             exists e, hmm_fit E (X self) (lengths self) n (random_state self) = Raise e) ->
  hmm_fit E (X self) (lengths self) (n_constant self) (random_state self) = Ret params ->
  fst (select E strategy self w) =
  Ret (Some {| n_components := n_constant self;
               hmm_random_state := random_state self;
               fitted_params := params |}).
Proof.
  intros Hfail Hok.
  destruct (select_result E strategy self w) as (r & Hr & Hwhich & _).
  rewrite Hr. f_equal.
  destruct Hwhich as [H | (n & m & Hn & Hfit & _)].
  - rewrite H. unfold fitted. rewrite Hok. reflexivity.
  - destruct (Hfail n Hn) as [e He]. unfold fitted in Hfit. rewrite He in Hfit.
    discriminate.
Qed.

(** C7.  With any strategy, the state count of the model [select()] returns
    lies in [[min_n_components, max_n_components]] or is [n_constant]. *)
Theorem select_state_count_in_range (strategy : Strategy) (self : ModelSelector)
    (w : World) (m : GaussianHMM) :
  fst (select E strategy self w) = Ret (Some m) ->
  min_n_components self <= n_components m <= max_n_components self \/
  n_components m = n_constant self.
Proof.
  intro Hsel.
  destruct (select_result E strategy self w) as (r & Hr & Hwhich & _).
  rewrite Hsel in Hr. inversion Hr. subst r.
  destruct Hwhich as [H | (n & m' & Hn & Hfit & H)].
  - right. symmetry in H. exact (fitted_n_components E _ _ _ H).
  - left. inversion H. subst m'. rewrite (fitted_n_components E _ _ _ Hfit). exact Hn.
Qed.

(** C8.  Determinism: a second call of [select()] on the same selector,
    made in the world the first call left behind (its output printed, its
    warning filter installed), returns what the first call returned, hence
    a model with the same state count. *)
Theorem select_twice_same_state_count (strategy : Strategy) (self : ModelSelector)
    (w : World) :
  fst (select E strategy self (snd (select E strategy self w))) =
  fst (select E strategy self w)
  /\
  reported_state_count (fst (select E strategy self (snd (select E strategy self w)))) =
  reported_state_count (fst (select E strategy self w)).
Proof.
  assert (H : fst (select E strategy self (snd (select E strategy self w))) =
              fst (select E strategy self w)).
  { apply (stable_select E strategy self). apply (keeps_select E strategy self). }
  split; [exact H | rewrite H; reflexivity].
Qed.

(** C9.  With any strategy, [select()] leaves the two corpus dictionaries
    as it found them: same keys, in the same order, with the same values. *)
Theorem select_keeps_corpus (strategy : Strategy) (self : ModelSelector) (w : World) :
  all_word_sequences (snd (select E strategy self w)) = all_word_sequences w /\
  all_word_Xlengths (snd (select E strategy self w)) = all_word_Xlengths w.
Proof.
  pose proof (keeps_select E strategy self w) as H.
  split; [exact (f_equal fst H) | exact (f_equal snd H)].
Qed.

Lemma dict_lookup_In {V : Type} (d : dict V) (k : string) :
  In k (dict_keys d) <-> exists v, dict_lookup d k = Some v.
Proof.
  induction d as [| [k' v'] d IH]; simpl.
  - split; [intros [] | intros [v H]; discriminate].
  - destruct (String.eqb k' k) eqn:Hk.
    + apply String.eqb_eq in Hk. split; [intros _; exists v'; reflexivity | auto].
    + apply String.eqb_neq in Hk. rewrite <- IH. split; [intros [H | H] | ]; tauto.
Qed.

(** C10.  Constructing a selector for a label that is a key of both
    dictionaries succeeds, and the selector holds the entries found under
    the label; for a label that is missing from either dictionary the
    construction raises [KeyError] and there is no selector. *)
Theorem init_needs_label_in_both (word : string) (nc mn mx rs : Z) (vb : bool) (w : World) :
  (In word (dict_keys (all_word_sequences w)) /\
   In word (dict_keys (all_word_Xlengths w)) ->
   exists self,
     fst (ModelSelector_init word nc mn mx rs vb w) = Ret self /\
     this_word self = word /\
     dict_lookup (all_word_sequences w) word = Some (sequences self) /\
     dict_lookup (all_word_Xlengths w) word = Some (X self, lengths self))
  /\
  (~ (In word (dict_keys (all_word_sequences w)) /\
      In word (dict_keys (all_word_Xlengths w))) ->
   fst (ModelSelector_init word nc mn mx rs vb w) = Raise (KeyError word)).
Proof.
  rewrite init_run. unfold init_value, dict_get. simpl. split.
  - intros [H1 H2]. apply dict_lookup_In in H1. apply dict_lookup_In in H2.
    destruct H1 as [seqs H1], H2 as [[X0 lengths0] H2]. rewrite H1, H2.
    eexists. split; [reflexivity |]. simpl. auto.
  - intro Hnot.
    destruct (dict_lookup (all_word_sequences w) word) as [seqs |] eqn:H1;
      [| reflexivity].
    destruct (dict_lookup (all_word_Xlengths w) word) as [xl |] eqn:H2;
      [| reflexivity].
    exfalso. apply Hnot. split; apply dict_lookup_In; eauto.
Qed.

(** C4 (as amended).  In SelectorCV, for every candidate [n] and every fold
    whose training sequences combine and whose score succeeds, the model
    scored for the fold is the one [base_model(n)] fits at [n] states on the
    item's whole flattened data [(self.X, self.lengths)]; the fold's
    training sequences, flattened by [combine_sequences], are the data that
    model is scored on, and the resulting log-likelihood is what the fold
    leaves in [sum_log_likelihood]. *)
Theorem SelectorCV_fold_scores_full_data_model (self : ModelSelector) (n : Z)
    (fold : list nat * list nat) (w : World) (f : Frame)
    (X0 : Matrix) (lengths0 : list Z) (params : Matrix) (logL : Q) :
  combine_sequences E (fst fold) (sequences self) = Ret (X0, lengths0) ->
  hmm_fit E (X self) (lengths self) n (random_state self) = Ret params ->
  hmm_score E {| n_components := n;
                 hmm_random_state := random_state self;
                 fitted_params := params |} X0 lengths0 = Ret logL ->
  model (snd (snd (SelectorCV_fold E self n fold (w, f)))) =
    Some (Some {| n_components := n;
                  hmm_random_state := random_state self;
                  fitted_params := params |}) /\
  sum_log_likelihood (snd (snd (SelectorCV_fold E self n fold (w, f)))) = logL /\
  count_log_likelihood (snd (snd (SelectorCV_fold E self n fold (w, f)))) =
    count_log_likelihood f + 1.
Proof.
  intros Hcomb Hfit Hscore.
  change (wp (SelectorCV_fold E self n fold)
            (fun _ s' =>
               model (snd s') =
                 Some (Some {| n_components := n;
                               hmm_random_state := random_state self;
                               fitted_params := params |}) /\
               sum_log_likelihood (snd s') = logL /\
               count_log_likelihood (snd s') = count_log_likelihood f + 1)
            (w, f)).
  unfold SelectorCV_fold. wp_steps. rewrite Hcomb. frame_simpl. wp_steps.
  apply wp_base_model. intros w1 H1. frame_simpl. wp_steps.
  unfold fitted. rewrite Hfit. frame_simpl. rewrite Hscore. frame_simpl. wp_steps.
  wp_done.
Qed.

(** C3 (as amended).  In SelectorDIC, let [others] be the vocabulary without
    the target item, not empty.  For every candidate [n] at which the
    target's own fit and every other item's fit succeed, the score standing
    when the accumulation over the other items is complete is [L_i] minus
    the sum of the other items' log-likelihoods divided by the number of
    other items (the vocabulary size less one).  If that holds for every
    candidate of a non-empty range that does not contain [0], the model
    returned is [base_model] refitted at a candidate of the range. *)
Theorem SelectorDIC_score_when_all_fit (self : ModelSelector) (w : World)
    (others : list string) :
  list_remove (this_word self) (dict_keys (all_word_sequences w)) = Ret others ->
  others <> [] ->
  (forall n f li ll,
      all_fit_at E self w others n li ll ->
      score (snd (snd (SelectorDIC_candidate E self n (w, f)))) =
      Some (li - sum_of ll others / inject_Z (len others))%Q)
  /\
  (min_n_components self <= max_n_components self ->
   ~ (min_n_components self <= 0 <= max_n_components self) ->
   (forall n, min_n_components self <= n <= max_n_components self ->
              exists li ll, all_fit_at E self w others n li ll) ->
   exists n m,
     min_n_components self <= n <= max_n_components self /\
     fst (base_model E self n w) = Ret (Some m) /\
     fst (select E DIC self w) = Ret (Some m)).
Proof.
  intros Hrem Hne. split.
  - intros n f li ll Hfit.
    destruct (all_fit_at_own E _ _ _ _ _ _ Hfit) as (m & Hm & Hli).
    pose proof (DIC_candidate_ok E self n w f m li others ll Hm Hli Hrem Hne
                  (all_fit_at_others E _ _ _ _ _ _ Hfit)) as H.
    unfold wp in H. destruct H as (_ & _ & H & _). exact H.
  - intros Hle Hzero Hall.
    destruct (DIC_ok_select E self w others Hrem Hne Hle Hzero Hall)
      as (n & m & Hn & Hm & Hsel).
    exists n, m. rewrite base_model_result, Hm. auto.
Qed.

(** C2 (the code at the failing input).  Three sequences, three folds, a
    fitter that always succeeds and a scorer that answers 6 on every fold:
    the score SelectorCV computes for the candidate is 6/3, not 6. *)
Theorem SelectorCV_constant_likelihood_score :
  kfold_split (stub_env never ll_six) (sequences (demo_selector 1 2 3)) =
    Ret [([1; 2], [0]); ([0; 2], [1]); ([0; 1], [2])]%nat /\
  exists q,
    score (snd (snd (SelectorCV_candidate (stub_env never ll_six) (demo_selector 1 2 3) 2
                       (demo_world, fresh_frame)))) = Some q /\
    (q == 6 / 3)%Q /\ ~ (q == 6)%Q.
Proof.
  split; [reflexivity |]. exists (6 # 3)%Q.
  split; [vm_compute; reflexivity |]. split; [reflexivity |].
  intro H. vm_compute in H. discriminate H.
Qed.

End Properties.

(* ================================================================== *)
(** ** The properties on the small corpus *)

(** C1 as stated fails: with a fitter that fails for every state count,
    the fit with [n_constant] states fails too, and every strategy returns
    [None] to the caller instead of raising. *)
Lemma select_returns_None_when_all_fits_fail :
  hmm_fit (stub_env always ll_six) (X (demo_selector 3 2 10))
    (lengths (demo_selector 3 2 10)) 3 14 = Raise (LibraryError 1) /\
  fst (select (stub_env always ll_six) Constant (demo_selector 3 2 10) demo_world) = Ret None /\
  fst (select (stub_env always ll_six) BIC (demo_selector 3 2 10) demo_world) = Ret None /\
  fst (select (stub_env always ll_six) DIC (demo_selector 3 2 10) demo_world) = Ret None /\
  fst (select (stub_env always ll_six) CV (demo_selector 3 2 10) demo_world) = Ret None.
Proof. repeat split; vm_compute; reflexivity. Qed.

Lemma select_returns_model_or_None_witness :
  exists r : option GaussianHMM,
    fst (select (stub_env always ll_six) BIC (demo_selector 3 2 10) demo_world) = Ret r /\
    fst (base_model (stub_env always ll_six) (demo_selector 3 2 10) 3 demo_world) = Ret r /\
    fst (base_model (stub_env always ll_six) (demo_selector 3 2 10) 3 demo_world) = Ret None.
Proof.
  destruct (select_returns_model_or_None (stub_env always ll_six) BIC
              (demo_selector 3 2 10) demo_world) as (r & Hr & Hfall & Hnone).
  exists r. split; [exact Hr |]. split.
  - apply Hfall. vm_compute. reflexivity.
  - apply Hnone. vm_compute in Hr. congruence.
Defined.

(** C3 as stated fails.  BOOK is the target, CHAIR and FISH the other
    words, every fit succeeds.  At [n = 2] the log-likelihoods are 0, -10
    and 100; at [n = 3] all are 0.  The score left after the accumulation
    for [n = 2] is [0 - 90/2], not the claimed [0 - 90/(2 - 1)]; the best
    score recorded is the one computed after CHAIR alone, [0 - (-10)/2];
    and the model returned has 2 states although candidate 3 has the
    greater score, by the claimed formula and by the final scores alike. *)
Lemma SelectorDIC_claimed_score_fails :
  exists q_code q_spec q_best q_code3 q_spec3 m,
    score (snd (snd (SelectorDIC_candidate (stub_env never ll_first) (demo_selector 1 2 3) 2
                       (demo_world, fresh_frame)))) = Some q_code /\
    spec_DIC_score (stub_env never ll_first) (demo_selector 1 2 3) demo_world 2 = Some q_spec /\
    ~ (q_code == q_spec)%Q /\
    best_score_so_far
      (snd (snd (SelectorDIC_candidate (stub_env never ll_first) (demo_selector 1 2 3) 2
                   (demo_world, fresh_frame)))) = Fin q_best /\
    ~ (q_best == q_code)%Q /\
    score (snd (snd (SelectorDIC_candidate (stub_env never ll_first) (demo_selector 1 2 3) 3
                       (demo_world, fresh_frame)))) = Some q_code3 /\
    spec_DIC_score (stub_env never ll_first) (demo_selector 1 2 3) demo_world 3 = Some q_spec3 /\
    (q_code < q_code3)%Q /\ (q_spec < q_spec3)%Q /\
    fst (select (stub_env never ll_first) DIC (demo_selector 1 2 3) demo_world) = Ret (Some m) /\
    n_components m = 2.
Proof.
  exists (-90 # 2)%Q, (-90)%Q, (10 # 2)%Q, (0 # 2)%Q, 0%Q.
  eexists.
  split; [vm_compute; reflexivity |].
  split; [vm_compute; reflexivity |].
  split; [intro H; vm_compute in H; discriminate H |].
  split; [vm_compute; reflexivity |].
  split; [intro H; vm_compute in H; discriminate H |].
  split; [vm_compute; reflexivity |].
  split; [vm_compute; reflexivity |].
  split; [reflexivity |].
  split; [reflexivity |].
  split; [vm_compute; reflexivity | reflexivity].
Qed.

Lemma SelectorDIC_score_when_all_fit_witness :
  score (snd (snd (SelectorDIC_candidate (stub_env never ll_first) (demo_selector 1 2 3) 2
                     (demo_world, fresh_frame)))) =
  Some (0 - sum_of (fun word => if String.eqb word "CHAIR" then (-10)%Q else 100%Q)
                   ["CHAIR"; "FISH"]%string
            / inject_Z (len ["CHAIR"; "FISH"]%string))%Q
  /\
  exists n m,
    2 <= n <= 3 /\
    fst (base_model (stub_env never ll_first) (demo_selector 1 2 3) n demo_world) =
      Ret (Some m) /\
    fst (select (stub_env never ll_first) DIC (demo_selector 1 2 3) demo_world) =
      Ret (Some m).
Proof.
  destruct (SelectorDIC_score_when_all_fit (stub_env never ll_first) (demo_selector 1 2 3)
              demo_world ["CHAIR"; "FISH"]%string) as [Hscore Hsel].
  - reflexivity.
  - discriminate.
  - split.
    + apply Hscore. split.
      * eexists. split; reflexivity.
      * intros word [<- | [<- | []]]; eexists; eexists; repeat split; reflexivity.
    + apply Hsel.
      * simpl. lia.
      * simpl. lia.
      * intros n Hn.
        exists (0 * inject_Z (3 - n))%Q,
          (fun word => if String.eqb word "CHAIR"
                       then (-10 * inject_Z (3 - n))%Q else (100 * inject_Z (3 - n))%Q).
        split.
        -- eexists. split; reflexivity.
        -- intros word [<- | [<- | []]]; eexists; eexists; repeat split; reflexivity.
Defined.

(** C4 as stated fails.  With a fitter whose model remembers the data it
    was fitted on: in the first fold the training sequences are the second
    and third, the model scored on them was fitted on all three sequences,
    and fitting on the fold's training sequences gives another model. *)
Lemma SelectorCV_fold_model_not_fitted_on_fold :
  exists rest Xtrain ltrain m,
    kfold_split (stub_env never ll_frames) (sequences (demo_selector 1 2 3)) =
      Ret (([1; 2], [0])%nat :: rest) /\
    combine_sequences (stub_env never ll_frames) [1; 2]%nat
      (sequences (demo_selector 1 2 3)) = Ret (Xtrain, ltrain) /\
    model (snd (snd (SelectorCV_fold (stub_env never ll_frames) (demo_selector 1 2 3) 2
                       ([1; 2], [0])%nat (demo_world, fresh_frame)))) = Some (Some m) /\
    hmm_score (stub_env never ll_frames) m Xtrain ltrain =
      Ret (sum_log_likelihood
             (snd (snd (SelectorCV_fold (stub_env never ll_frames) (demo_selector 1 2 3) 2
                          ([1; 2], [0])%nat (demo_world, fresh_frame))))) /\
    hmm_fit (stub_env never ll_frames) (X (demo_selector 1 2 3))
      (lengths (demo_selector 1 2 3)) 2 14 = Ret (fitted_params m) /\
    hmm_fit (stub_env never ll_frames) Xtrain ltrain 2 14 <> Ret (fitted_params m).
Proof.
  eexists. eexists. eexists. eexists.
  split; [vm_compute; reflexivity |].
  split; [vm_compute; reflexivity |].
  split; [vm_compute; reflexivity |].
  split; [vm_compute; reflexivity |].
  split; [vm_compute; reflexivity |].
  intro H. vm_compute in H. discriminate H.
Qed.

Lemma SelectorCV_fold_scores_full_data_model_witness :
  model (snd (snd (SelectorCV_fold (stub_env never ll_frames) (demo_selector 1 2 3) 2
                     ([1; 2], [0])%nat (demo_world, fresh_frame)))) =
    Some (Some {| n_components := 2;
                  hmm_random_state := 14;
                  fitted_params := X (demo_selector 1 2 3) |}) /\
  sum_log_likelihood
    (snd (snd (SelectorCV_fold (stub_env never ll_frames) (demo_selector 1 2 3) 2
                 ([1; 2], [0])%nat (demo_world, fresh_frame)))) = inject_Z (-3) /\
  count_log_likelihood
    (snd (snd (SelectorCV_fold (stub_env never ll_frames) (demo_selector 1 2 3) 2
                 ([1; 2], [0])%nat (demo_world, fresh_frame)))) = 0 + 1.
Proof.
  apply (SelectorCV_fold_scores_full_data_model (stub_env never ll_frames)
           (demo_selector 1 2 3) 2 ([1; 2], [0])%nat demo_world fresh_frame
           [[0%Q]; [1%Q]; [2%Q]] [2; 1] (X (demo_selector 1 2 3)) (inject_Z (-3)));
    reflexivity.
Defined.

Lemma SelectorBIC_minimum_score_witness :
  BIC_score (stub_env never ll_frames) (demo_selector 1 2 3) 2 demo_world =
    Some (-2 * inject_Z (-4)
          + inject_Z (2 * (2 - 1) + 2 * len [0%Q] * 2)
            * np_log (stub_env never ll_frames) (len (X (demo_selector 1 2 3))))%Q
  /\
  BIC_score (stub_env from_two ll_frames) (demo_selector 1 2 3) 2 demo_world = None
  /\
  (exists n q m,
      2 <= n <= 3 /\
      BIC_score (stub_env never ll_frames) (demo_selector 1 2 3) n demo_world = Some q /\
      fst (base_model (stub_env never ll_frames) (demo_selector 1 2 3) n demo_world) =
        Ret (Some m) /\
      fst (select (stub_env never ll_frames) BIC (demo_selector 1 2 3) demo_world) =
        Ret (Some m) /\
      forall n' q',
        2 <= n' <= 3 ->
        BIC_score (stub_env never ll_frames) (demo_selector 1 2 3) n' demo_world = Some q' ->
        (q <= q')%Q)
  /\
  fst (select (stub_env from_two ll_frames) BIC (demo_selector 1 2 3) demo_world) =
  fst (base_model (stub_env from_two ll_frames) (demo_selector 1 2 3) 1 demo_world).
Proof.
  destruct (SelectorBIC_minimum_score (stub_env never ll_frames) (demo_selector 1 2 3)
              demo_world) as (Hscore & _ & Hmin & _).
  destruct (SelectorBIC_minimum_score (stub_env from_two ll_frames) (demo_selector 1 2 3)
              demo_world) as (_ & Hfail & _ & Hfall).
  split; [| split; [| split]].
  - apply (Hscore 2 (X (demo_selector 1 2 3)) [0%Q] [[0%Q]; [1%Q]; [2%Q]] (inject_Z (-4)));
      reflexivity.
  - apply (Hfail 2 (LibraryError 1)). reflexivity.
  - apply (Hmin 2).
    + simpl. lia.
    + vm_compute. discriminate.
  - apply Hfall. intros n Hn. simpl in Hn.
    apply (Hfail n (LibraryError 1)).
    unfold stub_env, hmm_fit, stub_fit, from_two.
    destruct (Z.leb_spec 2 n); [reflexivity | lia].
Defined.

Lemma fallback_law_witness :
  fst (select (stub_env from_two ll_six) BIC (demo_selector 1 2 4) demo_world) =
    Ret (Some {| n_components := 1; hmm_random_state := 14;
                 fitted_params := X (demo_selector 1 2 4) |}) /\
  fst (select (stub_env from_two ll_six) DIC (demo_selector 1 2 4) demo_world) =
    Ret (Some {| n_components := 1; hmm_random_state := 14;
                 fitted_params := X (demo_selector 1 2 4) |}) /\
  fst (select (stub_env from_two ll_six) CV (demo_selector 1 2 4) demo_world) =
    Ret (Some {| n_components := 1; hmm_random_state := 14;
                 fitted_params := X (demo_selector 1 2 4) |}).
Proof.
  assert (Hfail : forall n, 2 <= n <= 4 ->
            exists e, hmm_fit (stub_env from_two ll_six) (X (demo_selector 1 2 4))
                        (lengths (demo_selector 1 2 4)) n 14 = Raise e).
  { intros n Hn. exists (LibraryError 1).
    unfold stub_env, hmm_fit, stub_fit, from_two.
    destruct (Z.leb_spec 2 n); [reflexivity | lia]. }
  split; [| split].
  - apply (fallback_law (stub_env from_two ll_six) BIC (demo_selector 1 2 4) demo_world);
      [exact Hfail | reflexivity].
  - apply (fallback_law (stub_env from_two ll_six) DIC (demo_selector 1 2 4) demo_world);
      [exact Hfail | reflexivity].
  - apply (fallback_law (stub_env from_two ll_six) CV (demo_selector 1 2 4) demo_world);
      [exact Hfail | reflexivity].
Defined.

Lemma select_state_count_in_range_witness :
  min_n_components (demo_selector 1 2 3) <= 2 <= max_n_components (demo_selector 1 2 3) \/
  2 = n_constant (demo_selector 1 2 3).
Proof.
  apply (select_state_count_in_range (stub_env never ll_frames) BIC (demo_selector 1 2 3)
           demo_world
           {| n_components := 2; hmm_random_state := 14;
              fitted_params := X (demo_selector 1 2 3) |}).
  vm_compute. reflexivity.
Defined.

Lemma init_needs_label_in_both_witness :
  (exists self,
      fst (ModelSelector_init "BOOK" 3 2 10 14 false demo_world) = Ret self /\
      this_word self = "BOOK"%string /\
      dict_lookup (all_word_sequences demo_world) "BOOK" = Some (sequences self) /\
      dict_lookup (all_word_Xlengths demo_world) "BOOK" = Some (X self, lengths self))
  /\
  fst (ModelSelector_init "ZEBRA" 3 2 10 14 false demo_world) = Raise (KeyError "ZEBRA").
Proof.
  split.
  - apply (proj1 (init_needs_label_in_both "BOOK" 3 2 10 14 false demo_world)).
    split; simpl; auto.
  - apply (proj2 (init_needs_label_in_both "ZEBRA" 3 2 10 14 false demo_world)).
    intros [H _]. simpl in H.
    destruct H as [H | [H | [H | []]]]; discriminate H.
Defined.

(* ================================================================== *)
(** ** The search as a whole *)

Lemma wp_conj {S A : Type} (m : M S A) (Q1 Q2 : res A -> S -> Prop) s :
  wp m Q1 s -> wp m Q2 s -> wp m (fun r s' => Q1 r s' /\ Q2 r s') s.
Proof. unfold wp. auto. Qed.

Lemma Qltb_opp (x y : Q) : Qltb (- x) (- y) = Qltb y x.
Proof.
  destruct (Qltb y x) eqn:H.
  - apply Qltb_lt. apply Qltb_lt in H. apply Qopp_lt_compat. exact H.
  - apply Qltb_ge. apply Qltb_ge in H. apply Qopp_le_compat. exact H.
Qed.

Lemma py_range_empty (a b : Z) : b < a -> py_range a (b + 1) = [].
Proof.
  intro H. unfold py_range. replace (Z.to_nat (b + 1 - a)) with 0%nat by lia.
  reflexivity.
Qed.

Lemma py_range_cons (a b : Z) : a <= b -> py_range a (b + 1) = a :: py_range (a + 1) (b + 1).
Proof.
  intro H. unfold py_range.
  replace (Z.to_nat (b + 1 - a)) with (S (Z.to_nat (b + 1 - (a + 1)))) by lia.
  cbn [seq map]. f_equal; [cbn [Z.of_nat]; lia |].
  rewrite <- seq_shift, map_map. apply map_ext. intro i. lia.
Qed.

Section ChoiceLaws.

Variable val : Z -> option Q.

Lemma choose_from_app cur xs ys :
  choose_from val cur (xs ++ ys) = choose_from val (choose_from val cur xs) ys.
Proof. unfold choose_from. apply fold_left_app. Qed.

(** A choice stands through candidates whose keys are not lower. *)
Lemma choose_from_stands n v post :
  (forall n' v', In n' post -> val n' = Some v' -> (v <= v')%Q) ->
  choose_from val (Some (n, v)) post = Some (n, v).
Proof.
  induction post as [| x post IH]; intro H; [reflexivity |].
  unfold choose_from. cbn [fold_left]. unfold choose_step at 2.
  destruct (val x) as [v' |] eqn:Hx.
  - assert (Hle : (v <= v')%Q) by (apply (H x v'); [left; reflexivity | exact Hx]).
    apply Qltb_ge in Hle. rewrite Hle.
    apply IH. intros n' w Hin. apply H. right. exact Hin.
  - apply IH. intros n' w Hin. apply H. right. exact Hin.
Qed.

(** The choice over a list is its first candidate of least key, if any
    candidate has a key. *)
Lemma choose_spec xs :
  match choose val xs with
  | Some (n, v) => first_least val xs n v
  | None => forall n, In n xs -> val n = None
  end.
Proof.
  induction xs as [| x xs IH] using rev_ind.
  - cbn. intros n [].
  - unfold choose in *. rewrite choose_from_app.
    destruct (choose_from val None xs) as [[n0 v0] |].
    + unfold choose_from. cbn [fold_left]. unfold choose_step.
      destruct IH as (pre & post & Hxs & Hn0 & Hpre & Hpost).
      destruct (val x) as [v |] eqn:Hx.
      * destruct (Qltb v v0) eqn:Hlt.
        -- apply Qltb_lt in Hlt. exists xs, []. split; [reflexivity |].
           split; [exact Hx |]. split; [| intros n' v' []].
           intros n' v' Hin Hv'. rewrite Hxs in Hin. apply in_app_or in Hin.
           destruct Hin as [Hin | [<- | Hin]].
           ++ apply Qlt_trans with v0; [exact Hlt | exact (Hpre n' v' Hin Hv')].
           ++ rewrite Hn0 in Hv'. inversion Hv'. subst. exact Hlt.
           ++ apply Qlt_le_trans with v0; [exact Hlt | exact (Hpost n' v' Hin Hv')].
        -- apply Qltb_ge in Hlt. exists pre, (post ++ [x]).
           split; [rewrite Hxs, <- app_assoc; reflexivity |].
           split; [exact Hn0 |]. split; [exact Hpre |].
           intros n' v' Hin Hv'. apply in_app_or in Hin.
           destruct Hin as [Hin | [<- | []]].
           ++ exact (Hpost n' v' Hin Hv').
           ++ rewrite Hx in Hv'. inversion Hv'. subst. exact Hlt.
      * exists pre, (post ++ [x]).
        split; [rewrite Hxs, <- app_assoc; reflexivity |].
        split; [exact Hn0 |]. split; [exact Hpre |].
        intros n' v' Hin Hv'. apply in_app_or in Hin.
        destruct Hin as [Hin | [<- | []]].
        -- exact (Hpost n' v' Hin Hv').
        -- rewrite Hx in Hv'. discriminate.
    + unfold choose_from. cbn [fold_left]. unfold choose_step.
      destruct (val x) as [v |] eqn:Hx.
      * exists xs, []. split; [reflexivity |]. split; [exact Hx |].
        split; [| intros n' v' []].
        intros n' v' Hin Hv'. rewrite (IH n' Hin) in Hv'. discriminate.
      * intros n Hin. apply in_app_or in Hin. destruct Hin as [Hin | [<- | []]]; auto.
Qed.

(** And the first candidate of least key is the choice. *)
Lemma first_least_choose xs n v : first_least val xs n v -> choose val xs = Some (n, v).
Proof.
  intros (pre & post & -> & Hn & Hpre & Hpost).
  unfold choose. rewrite choose_from_app.
  pose proof (choose_spec pre) as Hspec. unfold choose in Hspec.
  assert (Hstep : choose_from val (choose_from val None pre) [n] = Some (n, v)).
  { unfold choose_from at 1. cbn [fold_left]. unfold choose_step. rewrite Hn.
    destruct (choose_from val None pre) as [[n1 v1] |]; [| reflexivity].
    destruct Hspec as (pre1 & post1 & Hp & Hn1 & _).
    assert (Hlt : (v < v1)%Q).
    { apply (Hpre n1 v1); [| exact Hn1]. rewrite Hp. apply in_or_app. right. left.
      reflexivity. }
    apply Qltb_lt in Hlt. rewrite Hlt. reflexivity. }
  change (n :: post) with ([n] ++ post). rewrite choose_from_app, Hstep.
  apply choose_from_stands. exact Hpost.
Qed.

Lemma choose_none xs : (forall n, In n xs -> val n = None) -> choose val xs = None.
Proof.
  intro H. pose proof (choose_spec xs) as Hspec.
  destruct (choose val xs) as [[n v] |]; [| reflexivity].
  destruct Hspec as (pre & post & Hxs & Hn & _).
  rewrite (H n) in Hn; [discriminate |].
  rewrite Hxs. apply in_or_app. right. left. reflexivity.
Qed.

End ChoiceLaws.

Lemma choose_from_ext (val val' : Z -> option Q) xs :
  (forall n, In n xs -> val n = val' n) ->
  forall cur, choose_from val cur xs = choose_from val' cur xs.
Proof.
  induction xs as [| x xs IH]; intros H cur; [reflexivity |].
  unfold choose_from. cbn [fold_left].
  replace (choose_step val' cur x) with (choose_step val cur x)
    by (unfold choose_step; rewrite (H x (or_introl eq_refl)); reflexivity).
  apply IH. intros n Hn. apply H. right. exact Hn.
Qed.

Lemma first_least_ext (val val' : Z -> option Q) xs n v :
  (forall k, In k xs -> val k = val' k) ->
  first_least val xs n v -> first_least val' xs n v.
Proof.
  intros H (pre & post & Hxs & Hn & Hpre & Hpost).
  assert (Hin : forall k, In k pre \/ k = n \/ In k post -> In k xs).
  { intros k Hk. rewrite Hxs. apply in_or_app.
    destruct Hk as [Hk | [-> | Hk]]; [left; exact Hk | right; left; reflexivity |
                                      right; right; exact Hk]. }
  exists pre, post. split; [exact Hxs |].
  split; [rewrite <- (H n); [exact Hn | apply Hin; auto] |]. split.
  - intros n' v' Hn' Hv'. apply (Hpre n' v' Hn'). rewrite (H n'); [exact Hv' | apply Hin; auto].
  - intros n' v' Hn' Hv'. apply (Hpost n' v' Hn'). rewrite (H n'); [exact Hv' | apply Hin; auto].
Qed.

(** Taking the key of another candidate away leaves the first candidate of
    least key what it was. *)
Lemma first_least_without (val val' : Z -> option Q) xs n v n0 :
  (forall k, k <> n0 -> val' k = val k) -> val' n0 = None -> n <> n0 ->
  first_least val xs n v -> first_least val' xs n v.
Proof.
  intros Hsame Hgone Hn (pre & post & Hxs & Hv & Hpre & Hpost).
  exists pre, post. split; [exact Hxs |].
  split; [rewrite (Hsame n Hn); exact Hv |]. split.
  - intros n' v' Hin Hv'. apply (Hpre n' v' Hin).
    rewrite <- (Hsame n'); [exact Hv' | intros ->; rewrite Hgone in Hv'; discriminate].
  - intros n' v' Hin Hv'. apply (Hpost n' v' Hin).
    rewrite <- (Hsame n'); [exact Hv' | intros ->; rewrite Hgone in Hv'; discriminate].
Qed.

(** The first candidate of greatest key is the first of least negated key. *)
Lemma first_greatest_least (val : Z -> option Q) xs n v :
  first_greatest val xs n v ->
  first_least (fun k => option_map Qopp (val k)) xs n (- v).
Proof.
  intros (pre & post & Hxs & Hv & Hpre & Hpost).
  exists pre, post. split; [exact Hxs |]. split; [rewrite Hv; reflexivity |]. split.
  - intros n' v' Hin Hv'. destruct (val n') as [u |] eqn:Hu; [| discriminate].
    inversion Hv'. apply Qopp_lt_compat. exact (Hpre n' u Hin Hu).
  - intros n' v' Hin Hv'. destruct (val n') as [u |] eqn:Hu; [| discriminate].
    inversion Hv'. apply Qopp_le_compat. exact (Hpost n' u Hin Hu).
Qed.

Section SearchResults.

Variable E : Externals.

Lemma BIC_key_score self n w : BIC_score E self n w = BIC_key E self n.
Proof. apply BIC_score_outcome. Qed.

(** The BIC loop computes the choice by score. *)
Lemma BIC_choose_loop self w xs :
  forall cur s,
    corpus (fst s) = corpus w -> BIC_holds E self cur (snd s) ->
    wp (for_each xs (SelectorBIC_candidate E self))
       (fun r s' =>
          r = Ret tt /\ corpus (fst s') = corpus w /\
          BIC_holds E self (choose_from (BIC_key E self) cur xs) (snd s'))
       s.
Proof.
  induction xs as [| n xs IH]; intros cur [w1 f1] Hc Hh; frame_simpl.
  - cbn [for_each]. apply wp_ret. unfold choose_from. cbn [fold_left fst snd]. auto.
  - cbn [for_each]. apply wp_bind.
    eapply wp_mono; [| apply (BIC_candidate_wp E self n w1 f1)].
    intros r [w2 f2] (-> & Hc2 & Hstep). frame_simpl.
    unfold choose_from. cbn [fold_left].
    apply IH; frame_simpl; [congruence |].
    unfold choose_step, BIC_key.
    destruct (BIC_outcome E self n) as [[sc m] |] eqn:Ho; cbn [option_map fst].
    + destruct Hstep as [_ Hupd].
      destruct cur as [[n0 v0] |]; cbn [BIC_holds] in *.
      * destruct Hh as (Hbs & m0 & Ho0 & Hbm). rewrite Hbs in Hupd. cbn [flt] in Hupd.
        destruct (Qltb sc v0); destruct Hupd as [Hbs' Hbm'].
        -- split; [exact Hbs' |]. exists m. auto.
        -- split; [congruence |]. exists m0. split; [exact Ho0 | congruence].
      * destruct Hh as (Hbs & Hbm). rewrite Hbs in Hupd. cbn [flt] in Hupd.
        destruct Hupd as [Hbs' Hbm']. split; [exact Hbs' |]. exists m. auto.
    + destruct Hstep as (_ & Hbs' & Hbm').
      destruct cur as [[n0 v0] |]; cbn [BIC_holds] in *.
      * destruct Hh as (Hbs & m0 & Ho0 & Hbm). split; [congruence |].
        exists m0. split; [exact Ho0 | congruence].
      * destruct Hh as (Hbs & Hbm). split; congruence.
Qed.

(** What [SelectorBIC.select] returns, by the choice over the candidates. *)
Lemma BIC_select_choose self w :
  fst (select E BIC self w) =
  Ret (match choose (BIC_key E self) (candidates self) with
       | Some (n, _) => fitted E self n
       | None => fitted E self (n_constant self)
       end).
Proof.
  apply (select_via_body E BIC self w
           (fun r _ =>
              r = Ret (match choose (BIC_key E self) (candidates self) with
                       | Some (n, _) => fitted E self n
                       | None => fitted E self (n_constant self)
                       end))).
  cbn [select_body]. unfold SelectorBIC_select. wp_steps.
  eapply wp_mono;
    [| apply (BIC_choose_loop self w _ None); frame_simpl; [exact H | split; reflexivity]].
  intros r [w1 f1] (-> & Hc & Hh). frame_simpl. wp_steps.
  fold (candidates self) in Hh. fold (choose (BIC_key E self) (candidates self)) in Hh.
  destruct (choose (BIC_key E self) (candidates self)) as [[n v] |]; cbn [BIC_holds] in Hh.
  - destruct Hh as (_ & m & Ho & Hbm). rewrite Hbm. wp_steps.
    rewrite (BIC_outcome_fitted E _ _ _ _ Ho). reflexivity.
  - destruct Hh as (_ & Hbm). rewrite Hbm. wp_steps.
    apply wp_base_model. intros w2 H2. reflexivity.
Qed.

(** The penalty grows with the state count: with the same log-likelihood
    and a positive logarithm, a larger candidate from 1 up has the larger
    score. *)
Lemma BIC_formula_increasing (logL logN : Q) (D n n' : Z) :
  (0 < logN)%Q -> 0 <= D -> 1 <= n < n' ->
  (-2 * logL + inject_Z (n * (n - 1) + 2 * D * n) * logN
   < -2 * logL + inject_Z (n' * (n' - 1) + 2 * D * n') * logN)%Q.
Proof.
  intros HN HD Hn.
  apply Qplus_lt_r. apply Qmult_lt_compat_r; [exact HN |].
  rewrite <- Zlt_Qlt. nia.
Qed.

(** The fold loop of SelectorCV computes [CV_folds] on the pair
    (sum, count) and leaves the best score alone. *)
Lemma CV_folds_wp self n :
  forall folds acc s,
    CV_pair_inv acc s ->
    wp (for_each folds (SelectorCV_fold E self n))
       (fun r s' =>
          best_score_so_far (snd s') = best_score_so_far (snd s) /\
          match CV_folds E self n folds acc with
          | Ret acc' => r = Ret tt /\ CV_pair_inv acc' s'
          | Raise e => r = Raise e
          end)
       s.
Proof.
  induction folds as [| fold folds IH]; intros acc [w0 f0] [Hs Hc]; frame_simpl.
  - cbn [for_each CV_folds]. apply wp_ret. frame_simpl. unfold CV_pair_inv. auto.
  - cbn [for_each CV_folds]. apply wp_bind. unfold SelectorCV_fold. wp_steps.
    destruct (combine_sequences E (fst fold) (sequences self)) as [xl | e]; frame_simpl.
    + wp_steps. apply wp_base_model. intros w1 H1. frame_simpl. wp_steps.
      destruct (score_of E (fitted E self n) (fst xl) (snd xl)) as [logL | e];
        frame_simpl; wp_steps.
      * eapply wp_mono; [| apply (IH (logL, snd acc + 1))].
        -- intros r s' [Hb Hrest]. frame_simpl. split; [exact Hb | exact Hrest].
        -- unfold CV_pair_inv. frame_simpl. split; [reflexivity | congruence].
      * eapply wp_mono; [| apply (IH acc)].
        -- intros r s' [Hb Hrest]. frame_simpl. split; [exact Hb | exact Hrest].
        -- unfold CV_pair_inv. frame_simpl. auto.
    + auto.
Qed.

(** One turn of the CV loop, by the score of the candidate. *)
Lemma CV_candidate_choose_wp self n w f :
  wp (SelectorCV_candidate E self n)
     (fun r s' =>
        r = Ret tt /\ corpus (fst s') = corpus w /\
        match CV_outcome E self n with
        | Some sc =>
            score (snd s') = Some sc /\
            if flt (best_score_so_far f) (Fin sc)
            then best_score_so_far (snd s') = Fin sc /\
                 exists m, fitted E self n = Some m /\ best_model_so_far (snd s') = Some m
            else best_score_so_far (snd s') = best_score_so_far f /\
                 best_model_so_far (snd s') = best_model_so_far f
        | None =>
            score (snd s') = score f /\
            best_score_so_far (snd s') = best_score_so_far f /\
            best_model_so_far (snd s') = best_model_so_far f
        end)
     (w, f).
Proof.
  unfold SelectorCV_candidate, CV_outcome. wp_steps.
  destruct (kfold_split E (sequences self)) as [folds | e]; frame_simpl.
  - wp_steps.
    eapply wp_mono;
      [| apply wp_conj;
         [ apply (wp_for_each_any
                    (CV_fold_inv E self n w
                       (set_count_log_likelihood 0 (set_sum_log_likelihood 0 f))));
           [intros; apply CV_fold_wp; assumption |]
         | apply (CV_folds_wp self n folds (0%Q, 0)) ]].
    + intros r [w1 f1] [(Hc & Hs & Hb & Hm) [Hbs Hfolds]]. frame_simpl.
      destruct (CV_folds E self n folds (0%Q, 0)) as [[s c] | e].
      * destruct Hfolds as [-> [Hsum Hcount]]. frame_simpl. wp_steps.
        unfold py_div. rewrite Hsum, Hcount.
        destruct (c =? 0) eqn:Hz; frame_simpl.
        -- wp_steps. wp_done.
        -- apply Z.eqb_neq in Hz.
           destruct Hm as [Hm | [Hm Hfit]]; [congruence |].
           destruct (fitted E self n) as [m |] eqn:Hfn; [| congruence].
           wp_steps. rewrite Hbs.
           destruct (flt (best_score_so_far f) _); wp_steps.
           ++ unfold read_model. rewrite Hm. wp_steps. frame_simpl.
              repeat split; try congruence. exists m. auto.
           ++ wp_done.
      * rewrite Hfolds. wp_steps. wp_done.
    + unfold CV_fold_inv. frame_simpl. auto.
    + unfold CV_pair_inv. frame_simpl. auto.
  - wp_steps. wp_done.
Qed.

Lemma CV_score_outcome self n w : CV_score E self n w = CV_outcome E self n.
Proof.
  unfold CV_score.
  pose proof (CV_candidate_choose_wp self n w fresh_frame) as H. unfold wp in H.
  destruct H as (_ & _ & H).
  destruct (CV_outcome E self n) as [sc |]; destruct H as [H _]; exact H.
Qed.

(** The CV loop computes the choice by negated score. *)
Lemma CV_choose_loop self w xs :
  forall cur s,
    corpus (fst s) = corpus w -> CV_holds E self cur (snd s) ->
    wp (for_each xs (SelectorCV_candidate E self))
       (fun r s' =>
          r = Ret tt /\ corpus (fst s') = corpus w /\
          CV_holds E self (choose_from (CV_key E self) cur xs) (snd s'))
       s.
Proof.
  induction xs as [| n xs IH]; intros cur [w1 f1] Hc Hh; frame_simpl.
  - cbn [for_each]. apply wp_ret. unfold choose_from. cbn [fold_left fst snd]. auto.
  - cbn [for_each]. apply wp_bind.
    eapply wp_mono; [| apply (CV_candidate_choose_wp self n w1 f1)].
    intros r [w2 f2] (-> & Hc2 & Hstep). frame_simpl.
    unfold choose_from. cbn [fold_left].
    apply IH; frame_simpl; [congruence |].
    unfold choose_step, CV_key.
    destruct (CV_outcome E self n) as [sc |] eqn:Ho; cbn [option_map].
    + destruct Hstep as [_ Hupd].
      destruct cur as [[n0 v0] |]; cbn [CV_holds] in *.
      * destruct Hh as (sc0 & m0 & Hv & Ho0 & Hbs & Hfit0 & Hbm).
        rewrite Hbs in Hupd. cbn [flt] in Hupd. subst v0. rewrite Qltb_opp.
        destruct (Qltb sc0 sc).
        -- destruct Hupd as (Hbs' & m & Hfit & Hbm').
           exists sc, m. auto.
        -- destruct Hupd as (Hbs' & Hbm').
           exists sc0, m0. repeat split; congruence.
      * destruct Hh as (Hbs & Hbm). rewrite Hbs in Hupd. cbn [flt] in Hupd.
        destruct Hupd as (Hbs' & m & Hfit & Hbm'). exists sc, m. auto.
    + destruct Hstep as (_ & Hbs' & Hbm').
      destruct cur as [[n0 v0] |]; cbn [CV_holds] in *.
      * destruct Hh as (sc0 & m0 & Hv & Ho0 & Hbs & Hfit0 & Hbm).
        exists sc0, m0. repeat split; congruence.
      * destruct Hh as (Hbs & Hbm). split; congruence.
Qed.

(** What [SelectorCV.select] returns, by the choice over the candidates. *)
Lemma CV_select_choose self w :
  fst (select E CV self w) =
  Ret (match choose (CV_key E self) (candidates self) with
       | Some (n, _) => fitted E self n
       | None => fitted E self (n_constant self)
       end).
Proof.
  apply (select_via_body E CV self w
           (fun r _ =>
              r = Ret (match choose (CV_key E self) (candidates self) with
                       | Some (n, _) => fitted E self n
                       | None => fitted E self (n_constant self)
                       end))).
  cbn [select_body]. unfold SelectorCV_select. wp_steps.
  eapply wp_mono;
    [| apply (CV_choose_loop self w _ None); frame_simpl; [exact H | split; reflexivity]].
  intros r [w1 f1] (-> & Hc & Hh). frame_simpl. wp_steps.
  fold (candidates self) in Hh. fold (choose (CV_key E self) (candidates self)) in Hh.
  destruct (choose (CV_key E self) (candidates self)) as [[n v] |]; cbn [CV_holds] in Hh.
  - destruct Hh as (sc & m & _ & _ & _ & Hfit & Hbm). rewrite Hbm. wp_steps.
    rewrite Hfit. reflexivity.
  - destruct Hh as (_ & Hbm). rewrite Hbm. wp_steps.
    apply wp_base_model. intros w2 H2. reflexivity.
Qed.

(** *** SelectorDIC: no other word, and the divisor *)

(** With no word other than the target to go through, a candidate's turn
    computes no score and records nothing. *)
Lemma DIC_candidate_alone self n w f :
  (forall others,
      list_remove (this_word self) (dict_keys (all_word_sequences w)) = Ret others ->
      others = []) ->
  wp (SelectorDIC_candidate E self n)
     (fun r s' =>
        r = Ret tt /\ corpus (fst s') = corpus w /\
        score (snd s') = score f /\
        best_number_of_components (snd s') = best_number_of_components f)
     (w, f).
Proof.
  intro Halone. unfold SelectorDIC_candidate. wp_steps. apply wp_base_model.
  intros w1 H1. frame_simpl. wp_steps.
  destruct (fitted E self n) as [m |]; frame_simpl.
  - destruct (hmm_score E m (X self) (lengths self)) as [li | e]; frame_simpl.
    + wp_steps.
      assert (Hk : all_word_sequences w1 = all_word_sequences w)
        by exact (f_equal fst H1).
      rewrite Hk.
      destruct (list_remove (this_word self) (dict_keys (all_word_sequences w)))
        as [others | e] eqn:Hrem; frame_simpl.
      * rewrite (Halone others eq_refl). cbn [for_each]. wp_steps. wp_done.
      * wp_steps. wp_done.
    + wp_steps. wp_done.
  - wp_steps. wp_done.
Qed.

(** The loop over the other words keeps the divisor [number_of_words - 1]
    at or above the number of words still to come, and above it once
    something has been accumulated. *)
Lemma DIC_words_divisor self n li K :
  forall rest s,
    len rest <= number_of_words (snd s) - 1 ->
    (accumulated_log_likelihood_of_all_words_except_i (snd s) = 0%Q \/
     len rest + 1 <= number_of_words (snd s) - 1) ->
    number_of_words (snd s) <= K ->
    wp (for_each rest (SelectorDIC_word E self n li))
       (fun _ s' =>
          1 <= number_of_words (snd s') <= K /\
          (number_of_words (snd s') = 1 ->
           accumulated_log_likelihood_of_all_words_except_i (snd s') = 0%Q))
       s.
Proof.
  induction rest as [| word rest IH]; intros [w0 f0] Hlen Hacc HK; frame_simpl.
  - cbn [for_each]. apply wp_ret. frame_simpl. unfold len in *. cbn [List.length] in *.
    split; [lia |]. intro H1. destruct Hacc as [Hacc | Hacc]; [exact Hacc | lia].
  - assert (Hcons : len (word :: rest) = len rest + 1)
      by (unfold len; cbn [List.length]; lia).
    assert (Hpos : 0 <= len rest) by (unfold len; lia).
    rewrite Hcons in *.
    cbn [for_each]. apply wp_bind. unfold SelectorDIC_word. apply wp_bind.
    apply (wp_mono _
             (fun r s' =>
                r = Ret tt /\
                ((number_of_words (snd s') = number_of_words f0) \/
                 (number_of_words (snd s') = number_of_words f0 - 1 /\
                  accumulated_log_likelihood_of_all_words_except_i (snd s') =
                  accumulated_log_likelihood_of_all_words_except_i f0)))).
    + intros r [w1 f1] (-> & Hnw). frame_simpl.
      assert (Hnext : len rest <= number_of_words f1 - 1 /\
                      (accumulated_log_likelihood_of_all_words_except_i f1 = 0%Q \/
                       len rest + 1 <= number_of_words f1 - 1) /\
                      number_of_words f1 <= K).
      { destruct Hnw as [Hnw | [Hnw Ha]]; rewrite Hnw.
        - split; [lia |]. split; [right; lia | lia].
        - split; [lia |]. split; [| lia].
          destruct Hacc as [Hacc | Hacc]; [left; congruence | right; lia]. }
      destruct Hnext as (Hn1 & Hn2 & Hn3).
      assert (Hstop : 1 <= number_of_words f1 <= K /\
                      (number_of_words f1 = 1 ->
                       accumulated_log_likelihood_of_all_words_except_i f1 = 0%Q)).
      { split; [lia |]. intro H1. destruct Hn2 as [Hn2 | Hn2]; [exact Hn2 | lia]. }
      wp_steps. unfold py_div.
      destruct (number_of_words f1 - 1 =? 0); frame_simpl.
      * exact Hstop.
      * wp_steps.
        destruct (flt (best_score_so_far f1) _); wp_steps; frame_simpl;
          apply IH; frame_simpl; assumption.
    + wp_steps. apply wp_init. frame_simpl.
      destruct (init_value w0 word _ _ _ _ _) as [sel | e]; frame_simpl.
      * wp_steps. apply wp_base_model. intros w1 H1. frame_simpl. wp_steps.
        destruct (fitted E sel n) as [m |]; frame_simpl.
        -- destruct (hmm_score E m (X sel) (lengths sel)); frame_simpl; wp_steps;
             frame_simpl; auto.
        -- wp_steps. frame_simpl. auto.
      * wp_steps. frame_simpl. auto.
Qed.

(** *** Sums of log-likelihoods *)

Lemma fold_sum_lt (ll1 ll2 : string -> Q) (others : list string) :
  (forall word, In word others -> (ll1 word < ll2 word)%Q) ->
  forall a1 a2 : Q, (a1 < a2)%Q ->
  (fold_left (fun a word => a + ll1 word) others a1
   < fold_left (fun a word => a + ll2 word) others a2)%Q.
Proof.
  induction others as [| word others IH]; intros H a1 a2 Ha; cbn [fold_left].
  - exact Ha.
  - apply IH.
    + intros word' Hin. apply H. right. exact Hin.
    + apply Qplus_lt_le_compat; [exact Ha |].
      apply Qlt_le_weak. apply H. left. reflexivity.
Qed.

Lemma sum_of_lt (ll1 ll2 : string -> Q) (others : list string) :
  others <> [] ->
  (forall word, In word others -> (ll1 word < ll2 word)%Q) ->
  (sum_of ll1 others < sum_of ll2 others)%Q.
Proof.
  intros Hne H. destruct others as [| word others]; [contradiction |].
  unfold sum_of. cbn [fold_left]. apply fold_sum_lt.
  - intros word' Hin. apply H. right. exact Hin.
  - apply Qplus_lt_r. apply H. left. reflexivity.
Qed.

End SearchResults.

(** *** The warning filters *)


Section FilterLaws.

Context {S A B : Type}.
Variable g : S -> list WarnFilter.








End FilterLaws.














Section Filters.

Variable E : Externals.





End Filters.

(** *** The folds of SelectorCV *)

Lemma last_default {A : Type} (d d' : A) (l : list A) :
  forall x, last (x :: l) d = last (x :: l) d'.
Proof.
  induction l as [| y l IH]; intro x; [reflexivity |].
  change (last (y :: l) d = last (y :: l) d'). apply IH.
Qed.

Lemma last_cons {A : Type} (x d : A) (l : list A) : last (x :: l) d = last l x.
Proof.
  destruct l as [| y l]; [reflexivity |].
  change (last (y :: l) d = last (y :: l) x). apply last_default.
Qed.

Section Folds.

Variable E : Externals.

(** When every fold's training sequences combine, the pair ends on the
    log-likelihood of the last fold that scored and on the number of folds
    that scored. *)
Lemma CV_folds_all self n w :
  forall folds acc,
    (forall fold, In fold folds ->
       exists xl, combine_sequences E (fst fold) (sequences self) = Ret xl) ->
    CV_folds E self n folds acc =
    Ret (last (successes (map (fold_log_likelihood E self n w) folds)) (fst acc),
         snd acc + len (successes (map (fold_log_likelihood E self n w) folds))).
Proof.
  induction folds as [| fold folds IH]; intros [s c] H.
  - cbn. unfold len. cbn. rewrite Z.add_0_r. reflexivity.
  - cbn [CV_folds map]. unfold fold_log_likelihood at 1 3.
    rewrite base_model_result.
    destruct (H fold (or_introl eq_refl)) as [xl Hxl]. rewrite Hxl.
    assert (Hrest : forall fold', In fold' folds ->
              exists xl', combine_sequences E (fst fold') (sequences self) = Ret xl')
      by (intros fold' Hin; apply H; right; exact Hin).
    destruct (score_of E (fitted E self n) (fst xl) (snd xl)) as [logL | e];
      cbn [successes].
    + rewrite (IH (logL, snd (s, c) + 1) Hrest). cbn [fst snd]. rewrite last_cons.
      f_equal. f_equal. unfold len. cbn [List.length]. lia.
    + exact (IH (s, c) Hrest).
Qed.

(** A model that was not fitted scores on no fold. *)
Lemma CV_folds_unfitted self n :
  fitted E self n = None ->
  forall folds acc,
    CV_folds E self n folds acc = Ret acc \/
    exists e, CV_folds E self n folds acc = Raise e.
Proof.
  intros Hfit. induction folds as [| fold folds IH]; intro acc; cbn [CV_folds].
  - left. reflexivity.
  - destruct (combine_sequences E (fst fold) (sequences self)) as [xl | e].
    + rewrite Hfit. cbn [score_of]. apply IH.
    + right. exists e. reflexivity.
Qed.

Lemma CV_outcome_unfitted self n : fitted E self n = None -> CV_outcome E self n = None.
Proof.
  intro Hfit. unfold CV_outcome.
  destruct (kfold_split E (sequences self)) as [folds | e]; [| reflexivity].
  destruct (CV_folds_unfitted self n Hfit folds (0%Q, 0)) as [H | [e H]]; rewrite H;
    reflexivity.
Qed.

End Folds.

(** Two sets of collaborators that fit and score alike, combine alike and
    split into folds with the same training indices give a candidate the
    same score. *)
Lemma CV_folds_agree (E E' : Externals) self n :
  fitted E' self n = fitted E self n ->
  (forall m X0 lengths0, hmm_score E' m X0 lengths0 = hmm_score E m X0 lengths0) ->
  (forall idx, combine_sequences E' idx (sequences self) =
               combine_sequences E idx (sequences self)) ->
  forall folds folds' acc,
    map fst folds' = map fst folds ->
    CV_folds E' self n folds' acc = CV_folds E self n folds acc.
Proof.
  intros Hfit Hscore Hcomb.
  induction folds as [| fold folds IH]; intros [| fold' folds'] acc Hmap;
    try discriminate; [reflexivity |].
  cbn [map] in Hmap. inversion Hmap as [[Hhead Htail]].
  cbn [CV_folds]. rewrite Hhead, Hcomb, Hfit.
  destruct (combine_sequences E (fst fold) (sequences self)) as [xl | e]; [| reflexivity].
  assert (Hs : score_of E' (fitted E self n) (fst xl) (snd xl) =
               score_of E (fitted E self n) (fst xl) (snd xl))
    by (destruct (fitted E self n); [apply Hscore | reflexivity]).
  rewrite Hs.
  destruct (score_of E (fitted E self n) (fst xl) (snd xl)); apply IH; exact Htail.
Qed.

(* ================================================================== *)
(** ** Further properties of the selectors *)

Section Further.

Variable E : Externals.

(** X1.  With any strategy, a model that [select()] returns was fitted by
    [base_model] on the target word's own whole data [(self.X,
    self.lengths)], with the selector's seed and the state count the model
    reports; in SelectorCV too, where no model fitted on a fold is ever
    returned. *)
Theorem select_model_fitted_on_own_data (strategy : Strategy) (self : ModelSelector)
    (w : World) (m : GaussianHMM) :
  fst (select E strategy self w) = Ret (Some m) ->
  hmm_fit E (X self) (lengths self) (n_components m) (random_state self) =
    Ret (fitted_params m) /\
  hmm_random_state m = random_state self.
Proof.
  intro Hsel.
  destruct (select_result E strategy self w) as (r & Hr & Hwhich & _).
  rewrite Hsel in Hr. inversion Hr. subst r.
  assert (Hfit : exists n, fitted E self n = Some m).
  { destruct Hwhich as [H | (n & m' & _ & Hfit & H)].
    - exists (n_constant self). symmetry. exact H.
    - exists n. inversion H. subst m'. exact Hfit. }
  destruct Hfit as [n Hfit]. unfold fitted in Hfit.
  destruct (hmm_fit E (X self) (lengths self) n (random_state self)) as [params |] eqn:Hp;
    [| discriminate].
  inversion Hfit. subst m. cbn. auto.
Qed.

(** X2.  With an empty range ([max_n_components < min_n_components]) every
    strategy returns what [base_model(n_constant)] returns. *)
Theorem select_empty_range (strategy : Strategy) (self : ModelSelector) (w : World) :
  max_n_components self < min_n_components self ->
  fst (select E strategy self w) = fst (base_model E self (n_constant self) w).
Proof.
  intro Hempty. rewrite base_model_result.
  apply (select_via_body E strategy self w
           (fun r _ => r = Ret (fitted E self (n_constant self)))).
  destruct strategy; cbn [select_body].
  - unfold SelectorConstant_select. wp_steps. apply wp_base_model. intros w1 H1.
    reflexivity.
  - unfold SelectorBIC_select. rewrite (py_range_empty _ _ Hempty). cbn [for_each].
    wp_steps. cbn [fst snd fresh_frame best_model_so_far best_number_of_components Z.eqb].
    wp_steps. apply wp_base_model. intros w1 H1. reflexivity.
  - unfold SelectorDIC_select. rewrite (py_range_empty _ _ Hempty). cbn [for_each].
    wp_steps. cbn [fst snd fresh_frame best_model_so_far best_number_of_components Z.eqb].
    wp_steps. apply wp_base_model. intros w1 H1. reflexivity.
  - unfold SelectorCV_select. rewrite (py_range_empty _ _ Hempty). cbn [for_each].
    wp_steps. cbn [fst snd fresh_frame best_model_so_far best_number_of_components Z.eqb].
    wp_steps. apply wp_base_model. intros w1 H1. reflexivity.
Qed.

(** X3.  SelectorBIC on an observation matrix without rows: [self.X[0]]
    fails for every candidate, and [base_model(n_constant)] is returned. *)
Theorem SelectorBIC_no_rows (self : ModelSelector) (w : World) :
  X self = [] ->
  fst (select E BIC self w) = fst (base_model E self (n_constant self) w).
Proof.
  intro HX. rewrite BIC_select_choose, base_model_result.
  rewrite choose_none; [reflexivity |].
  intros n _. unfold BIC_key, BIC_outcome. rewrite HX.
  destruct (fitted E self n); reflexivity.
Qed.

(** X4.  In SelectorBIC, of two candidates [1 <= n < n'] whose models have
    the same log-likelihood, the larger has the strictly greater score,
    provided [log(N)] is positive. *)
Theorem SelectorBIC_score_grows_with_states (self : ModelSelector) (w : World) (n n' : Z)
    (params params' : Matrix) (row : Obs) (rest : Matrix) (logL : Q) :
  X self = row :: rest ->
  (0 < np_log E (len (X self)))%Q ->
  1 <= n < n' ->
  hmm_fit E (X self) (lengths self) n (random_state self) = Ret params ->
  hmm_fit E (X self) (lengths self) n' (random_state self) = Ret params' ->
  hmm_score E {| n_components := n; hmm_random_state := random_state self;
                 fitted_params := params |} (X self) (lengths self) = Ret logL ->
  hmm_score E {| n_components := n'; hmm_random_state := random_state self;
                 fitted_params := params' |} (X self) (lengths self) = Ret logL ->
  exists q q',
    BIC_score E self n w = Some q /\ BIC_score E self n' w = Some q' /\ (q < q')%Q.
Proof.
  intros HX HN Hn Hfit Hfit' Hs Hs'.
  rewrite !BIC_key_score. unfold BIC_key, BIC_outcome, fitted.
  rewrite Hfit, Hfit'. rewrite HX in *. rewrite Hs, Hs'. cbn [option_map fst].
  eexists. eexists. split; [reflexivity |]. split; [reflexivity |].
  apply BIC_formula_increasing; [exact HN | unfold len; lia | exact Hn].
Qed.

(** X5.  SelectorBIC returns the model fitted at the first candidate of
    the range whose score is least: earlier candidates have strictly
    greater scores, later ones scores that are not lower, so that of equal
    scores the smaller state count wins. *)
Theorem SelectorBIC_first_least_score (self : ModelSelector) (w : World) (n : Z) (q : Q) :
  first_least (fun k => BIC_score E self k w) (candidates self) n q ->
  exists m,
    fst (base_model E self n w) = Ret (Some m) /\
    fst (select E BIC self w) = Ret (Some m).
Proof.
  intro Hfirst.
  assert (Hkey : first_least (BIC_key E self) (candidates self) n q).
  { apply (first_least_ext (fun k => BIC_score E self k w)); [| exact Hfirst].
    intros k _. apply BIC_key_score. }
  rewrite BIC_select_choose, (first_least_choose _ _ _ _ Hkey), base_model_result.
  destruct Hkey as (_ & _ & _ & Hq & _). unfold BIC_key in Hq.
  destruct (BIC_outcome E self n) as [[sc m] |] eqn:Ho; [| discriminate].
  exists m. rewrite (BIC_outcome_fitted E _ _ _ _ Ho). auto.
Qed.

(** X6.  SelectorBIC with the same log-likelihood at every candidate, a
    range starting at 1 or above and a positive [log(N)]: the model with
    [min_n_components] states is returned. *)
Theorem SelectorBIC_equal_likelihood_smallest (self : ModelSelector) (w : World)
    (row : Obs) (rest : Matrix) (logL : Q) :
  X self = row :: rest ->
  (0 < np_log E (len (X self)))%Q ->
  1 <= min_n_components self <= max_n_components self ->
  (forall n, min_n_components self <= n <= max_n_components self ->
     exists params,
       hmm_fit E (X self) (lengths self) n (random_state self) = Ret params /\
       hmm_score E {| n_components := n; hmm_random_state := random_state self;
                      fitted_params := params |} (X self) (lengths self) = Ret logL) ->
  exists m,
    n_components m = min_n_components self /\
    fst (select E BIC self w) = Ret (Some m).
Proof.
  intros HX HN Hrange Hall.
  assert (Hkey : forall n, min_n_components self <= n <= max_n_components self ->
            BIC_key E self n =
            Some (-2 * logL + inject_Z (n * (n - 1) + 2 * len row * n)
                              * np_log E (len (X self)))%Q).
  { intros n Hn. destruct (Hall n Hn) as (params & Hfit & Hs).
    unfold BIC_key, BIC_outcome, fitted. rewrite Hfit. rewrite HX in *. rewrite Hs.
    reflexivity. }
  assert (Hfirst : first_least (BIC_key E self) (candidates self) (min_n_components self)
            (-2 * logL + inject_Z (min_n_components self * (min_n_components self - 1)
                                   + 2 * len row * min_n_components self)
                         * np_log E (len (X self)))%Q).
  { exists [], (py_range (min_n_components self + 1) (max_n_components self + 1)).
    split; [unfold candidates; apply py_range_cons; lia |].
    split; [apply Hkey; lia |]. split; [intros n' v' [] |].
    intros n' v' Hin Hv'. apply In_py_range in Hin.
    rewrite Hkey in Hv' by lia. inversion Hv'.
    apply Qlt_le_weak. apply BIC_formula_increasing; [exact HN | unfold len; lia | lia]. }
  rewrite BIC_select_choose, (first_least_choose _ _ _ _ Hfirst).
  destruct (Hall (min_n_components self)) as (params & Hfit & _); [lia |].
  unfold fitted. rewrite Hfit. eexists. split; [| reflexivity]. reflexivity.
Qed.

(** X7.  Fault isolation in SelectorBIC: if the fit is made to fail at one
    candidate [n0] and everything else is left as it was, and [n0] was not
    the candidate chosen, the same model is returned. *)
Theorem SelectorBIC_failure_elsewhere (E' : Externals) (self : ModelSelector) (w : World)
    (n0 n : Z) (q : Q) (e : exn) :
  (forall k, k <> n0 ->
     hmm_fit E' (X self) (lengths self) k (random_state self) =
     hmm_fit E (X self) (lengths self) k (random_state self)) ->
  (forall m, hmm_score E' m (X self) (lengths self) = hmm_score E m (X self) (lengths self)) ->
  np_log E' (len (X self)) = np_log E (len (X self)) ->
  hmm_fit E' (X self) (lengths self) n0 (random_state self) = Raise e ->
  first_least (fun k => BIC_score E self k w) (candidates self) n q ->
  n <> n0 ->
  fst (select E' BIC self w) = fst (select E BIC self w).
Proof.
  intros Hfit Hscore Hlog Hfail Hfirst Hn.
  assert (Hkey : first_least (BIC_key E self) (candidates self) n q).
  { apply (first_least_ext (fun k => BIC_score E self k w)); [| exact Hfirst].
    intros k _. apply BIC_key_score. }
  assert (Hsame : forall k, k <> n0 -> BIC_key E' self k = BIC_key E self k).
  { intros k Hk. unfold BIC_key, BIC_outcome, fitted. rewrite (Hfit k Hk), Hlog.
    destruct (hmm_fit E (X self) (lengths self) k (random_state self)); [| reflexivity].
    destruct (X self); [reflexivity |]. rewrite Hscore. reflexivity. }
  assert (Hgone : BIC_key E' self n0 = None).
  { unfold BIC_key, BIC_outcome, fitted. rewrite Hfail. reflexivity. }
  pose proof (first_least_without (BIC_key E self) (BIC_key E' self) _ _ _ n0
                Hsame Hgone Hn Hkey) as Hkey'.
  rewrite !BIC_select_choose.
  rewrite (first_least_choose _ _ _ _ Hkey), (first_least_choose _ _ _ _ Hkey').
  unfold fitted. rewrite (Hfit n Hn). reflexivity.
Qed.

(** X8.  In SelectorCV, when the split succeeds and every fold's training
    sequences combine, the score of a candidate is the log-likelihood of
    the last fold that scored, divided by the number of folds that scored
    (the folds' log-likelihoods are not added up). *)
Theorem SelectorCV_score_last_over_count (self : ModelSelector) (n : Z) (w : World)
    (folds : list (list nat * list nat)) :
  kfold_split E (sequences self) = Ret folds ->
  (forall fold, In fold folds ->
     exists xl, combine_sequences E (fst fold) (sequences self) = Ret xl) ->
  successes (map (fold_log_likelihood E self n w) folds) <> [] ->
  CV_score E self n w =
  Some (last (successes (map (fold_log_likelihood E self n w) folds)) 0
        / inject_Z (len (successes (map (fold_log_likelihood E self n w) folds))))%Q.
Proof.
  intros Hsplit Hcomb Hvalid.
  rewrite CV_score_outcome. unfold CV_outcome. rewrite Hsplit.
  rewrite (CV_folds_all E self n w folds (0%Q, 0) Hcomb). cbn [fst snd].
  rewrite Z.add_0_l.
  destruct (successes (map (fold_log_likelihood E self n w) folds)) as [| q valid] eqn:Hv;
    [contradiction |].
  assert (Hz : (len (q :: valid) =? 0) = false)
    by (apply Z.eqb_neq; unfold len; cbn [List.length]; lia).
  rewrite Hz. reflexivity.
Qed.

(** X9.  SelectorCV when the split fails (too few sequences for the
    folds): no candidate scores, and [base_model(n_constant)] is
    returned. *)
Theorem SelectorCV_split_fails (self : ModelSelector) (w : World) (e : exn) :
  kfold_split E (sequences self) = Raise e ->
  fst (select E CV self w) = fst (base_model E self (n_constant self) w).
Proof.
  intro Hsplit. rewrite CV_select_choose, base_model_result.
  rewrite choose_none; [reflexivity |].
  intros n _. unfold CV_key, CV_outcome. rewrite Hsplit. reflexivity.
Qed.

(** X10.  SelectorCV returns the model [base_model] fits at the first
    candidate of the range whose score is greatest: earlier candidates
    have strictly lower scores, later ones scores that are not greater. *)
Theorem SelectorCV_first_greatest_score (self : ModelSelector) (w : World) (n : Z) (q : Q) :
  first_greatest (fun k => CV_score E self k w) (candidates self) n q ->
  exists m,
    fst (base_model E self n w) = Ret (Some m) /\
    fst (select E CV self w) = Ret (Some m).
Proof.
  intro Hfirst.
  assert (Hkey : first_least (CV_key E self) (candidates self) n (- q)).
  { apply (first_least_ext (fun k => option_map Qopp (CV_score E self k w))).
    - intros k _. unfold CV_key. rewrite CV_score_outcome. reflexivity.
    - apply first_greatest_least. exact Hfirst. }
  rewrite CV_select_choose, (first_least_choose _ _ _ _ Hkey), base_model_result.
  destruct Hkey as (_ & _ & _ & Hq & _). unfold CV_key in Hq.
  destruct (fitted E self n) as [m |] eqn:Hfit.
  - exists m. auto.
  - rewrite (CV_outcome_unfitted E self n Hfit) in Hq. discriminate.
Qed.

(** X11.  SelectorCV never looks at the held-out part of a fold: two
    splitters that give the same training indices, with everything else
    the same, lead to the same result. *)
Theorem SelectorCV_ignores_test_indices (E' : Externals) (self : ModelSelector) (w : World)
    (folds folds' : list (list nat * list nat)) :
  (forall n, hmm_fit E' (X self) (lengths self) n (random_state self) =
             hmm_fit E (X self) (lengths self) n (random_state self)) ->
  (forall m X0 lengths0, hmm_score E' m X0 lengths0 = hmm_score E m X0 lengths0) ->
  (forall idx, combine_sequences E' idx (sequences self) =
               combine_sequences E idx (sequences self)) ->
  kfold_split E (sequences self) = Ret folds ->
  kfold_split E' (sequences self) = Ret folds' ->
  map fst folds' = map fst folds ->
  fst (select E' CV self w) = fst (select E CV self w).
Proof.
  intros Hfit Hscore Hcomb Hsplit Hsplit' Hmap.
  assert (Hfitted : forall n, fitted E' self n = fitted E self n)
    by (intro n; unfold fitted; rewrite Hfit; reflexivity).
  assert (Hkey : forall n, CV_key E' self n = CV_key E self n).
  { intro n. unfold CV_key, CV_outcome. rewrite Hsplit, Hsplit'.
    rewrite (CV_folds_agree E E' self n (Hfitted n) Hscore Hcomb folds folds' _ Hmap).
    reflexivity. }
  rewrite !CV_select_choose. unfold choose.
  rewrite (choose_from_ext (CV_key E' self) (CV_key E self) (candidates self)
             (fun n _ => Hkey n) None).
  rewrite Hfitted.
  destruct (choose_from (CV_key E self) None (candidates self)) as [[n v] |];
    [rewrite Hfitted |]; reflexivity.
Qed.

(** X12.  SelectorDIC when the target is the only word of the vocabulary
    (or is not in it): there is no other word to compare with, no score is
    computed, and [base_model(n_constant)] is returned. *)
Theorem SelectorDIC_no_other_word (self : ModelSelector) (w : World) :
  (forall others,
      list_remove (this_word self) (dict_keys (all_word_sequences w)) = Ret others ->
      others = []) ->
  fst (select E DIC self w) = fst (base_model E self (n_constant self) w).
Proof.
  intro Halone. rewrite base_model_result.
  apply (select_via_body E DIC self w
           (fun r _ => r = Ret (fitted E self (n_constant self)))).
  cbn [select_body]. unfold SelectorDIC_select. wp_steps.
  eapply wp_mono;
    [| apply (wp_for_each
                (fun t : World * Frame =>
                   corpus (fst t) = corpus w /\ best_number_of_components (snd t) = 0))].
  - intros r [w1 f1] (-> & Hc & Hbest). frame_simpl. wp_steps. rewrite Hbest.
    cbn [Z.eqb]. wp_steps. apply wp_base_model. intros w2 H2. reflexivity.
  - intros n [w1 f1] _ [Hc Hbest]. frame_simpl.
    eapply wp_mono; [| apply (DIC_candidate_alone E self n w1 f1)].
    + intros r [w2 f2] (-> & Hc2 & _ & Hb). frame_simpl.
      split; [reflexivity |]. split; congruence.
    + intros others Hrem. apply Halone. rewrite <- Hrem.
      replace (all_word_sequences w) with (all_word_sequences w1)
        by exact (f_equal fst Hc).
      reflexivity.
  - frame_simpl. split; [exact H | reflexivity].
Qed.

(** X13.  In SelectorDIC the score falls when the other words do better:
    with the own log-likelihood the same and every other word's
    log-likelihood strictly greater, the score standing after the
    accumulation is strictly lower. *)
Theorem SelectorDIC_score_falls_with_others (E' : Externals) (self : ModelSelector)
    (w : World) (others : list string) (n : Z) (f f' : Frame) (li : Q)
    (ll ll' : string -> Q) :
  list_remove (this_word self) (dict_keys (all_word_sequences w)) = Ret others ->
  others <> [] ->
  all_fit_at E self w others n li ll ->
  all_fit_at E' self w others n li ll' ->
  (forall word, In word others -> (ll word < ll' word)%Q) ->
  exists q q',
    score (snd (snd (SelectorDIC_candidate E self n (w, f)))) = Some q /\
    score (snd (snd (SelectorDIC_candidate E' self n (w, f')))) = Some q' /\
    (q' < q)%Q.
Proof.
  intros Hrem Hne Hfit Hfit' Hlt.
  destruct (all_fit_at_own E _ _ _ _ _ _ Hfit) as (m & Hm & Hli).
  destruct (all_fit_at_own E' _ _ _ _ _ _ Hfit') as (m' & Hm' & Hli').
  pose proof (DIC_candidate_ok E self n w f m li others ll Hm Hli Hrem Hne
                (all_fit_at_others E _ _ _ _ _ _ Hfit)) as H.
  pose proof (DIC_candidate_ok E' self n w f' m' li others ll' Hm' Hli' Hrem Hne
                (all_fit_at_others E' _ _ _ _ _ _ Hfit')) as H'.
  unfold wp in H, H'. destruct H as (_ & _ & H & _). destruct H' as (_ & _ & H' & _).
  eexists. eexists. split; [exact H |]. split; [exact H' |].
  unfold Qminus. apply Qplus_lt_r. apply Qopp_lt_compat.
  unfold Qdiv. apply Qmult_lt_compat_r.
  - apply Qinv_lt_0_compat. replace 0%Q with (inject_Z 0) by reflexivity.
    rewrite <- Zlt_Qlt. unfold len. destruct others; [contradiction |].
    cbn [List.length]. lia.
  - apply sum_of_lt; assumption.
Qed.

(** X14.  In SelectorDIC the divisor [number_of_words - 1] never becomes
    negative: after the turn of a candidate whose own model fits and
    scores, with the target in the vocabulary, [number_of_words] is at
    least 1 and at most the vocabulary size, and it is 1 (the divisor 0)
    only while nothing has been added to the accumulated sum. *)
Theorem SelectorDIC_divisor_not_negative (self : ModelSelector) (n : Z) (w : World)
    (f : Frame) (m : GaussianHMM) (li : Q) (others : list string) :
  fst (base_model E self n w) = Ret (Some m) ->
  hmm_score E m (X self) (lengths self) = Ret li ->
  list_remove (this_word self) (dict_keys (all_word_sequences w)) = Ret others ->
  1 <= number_of_words (snd (snd (SelectorDIC_candidate E self n (w, f))))
    <= len (dict_keys (all_word_sequences w)) /\
  (number_of_words (snd (snd (SelectorDIC_candidate E self n (w, f)))) = 1 ->
   accumulated_log_likelihood_of_all_words_except_i
     (snd (snd (SelectorDIC_candidate E self n (w, f)))) = 0%Q).
Proof.
  intros Hm Hli Hrem. rewrite base_model_result in Hm. inversion Hm as [Hfit].
  change (wp (SelectorDIC_candidate E self n)
            (fun _ s' =>
               1 <= number_of_words (snd s') <= len (dict_keys (all_word_sequences w)) /\
               (number_of_words (snd s') = 1 ->
                accumulated_log_likelihood_of_all_words_except_i (snd s') = 0%Q))
            (w, f)).
  pose proof (list_remove_length _ _ _ Hrem) as Hlen.
  unfold SelectorDIC_candidate. wp_steps. apply wp_base_model. intros w1 H1.
  frame_simpl. wp_steps. rewrite Hfit. frame_simpl. rewrite Hli. frame_simpl. wp_steps.
  assert (Hk : all_word_sequences w1 = all_word_sequences w)
    by exact (f_equal fst H1).
  rewrite Hk, Hrem. frame_simpl. wp_steps.
  eapply wp_mono;
    [| apply (DIC_words_divisor E self n li (len (dict_keys (all_word_sequences w))));
       frame_simpl; [lia | left; reflexivity | lia]].
  intros r [w2 f2] Hpost. frame_simpl.
  destruct r as [[] | e]; [exact Hpost |].
  wp_steps. frame_simpl. exact Hpost.
Qed.


(** X16.  Fault isolation in SelectorCV: if the fit is made to fail at one
    candidate [n0] and everything else is left as it was, and [n0] was not
    the candidate chosen, the same model is returned. *)
Theorem SelectorCV_failure_elsewhere (E' : Externals) (self : ModelSelector) (w : World)
    (n0 n : Z) (q : Q) (e : exn) :
  (forall k, k <> n0 ->
     hmm_fit E' (X self) (lengths self) k (random_state self) =
     hmm_fit E (X self) (lengths self) k (random_state self)) ->
  (forall m X0 lengths0, hmm_score E' m X0 lengths0 = hmm_score E m X0 lengths0) ->
  (forall idx, combine_sequences E' idx (sequences self) =
               combine_sequences E idx (sequences self)) ->
  kfold_split E' (sequences self) = kfold_split E (sequences self) ->
  hmm_fit E' (X self) (lengths self) n0 (random_state self) = Raise e ->
  first_greatest (fun k => CV_score E self k w) (candidates self) n q ->
  n <> n0 ->
  fst (select E' CV self w) = fst (select E CV self w).
Proof.
  intros Hfit Hscore Hcomb Hsplit Hfail Hfirst Hn.
  assert (Hkey : first_least (CV_key E self) (candidates self) n (- q)).
  { apply (first_least_ext (fun k => option_map Qopp (CV_score E self k w))).
    - intros k _. unfold CV_key. rewrite CV_score_outcome. reflexivity.
    - apply first_greatest_least. exact Hfirst. }
  assert (Hfitted : forall k, k <> n0 -> fitted E' self k = fitted E self k)
    by (intros k Hk; unfold fitted; rewrite (Hfit k Hk); reflexivity).
  assert (Hsame : forall k, k <> n0 -> CV_key E' self k = CV_key E self k).
  { intros k Hk. unfold CV_key, CV_outcome. rewrite Hsplit.
    destruct (kfold_split E (sequences self)) as [folds |]; [| reflexivity].
    rewrite (CV_folds_agree E E' self k (Hfitted k Hk) Hscore Hcomb folds folds _ eq_refl).
    reflexivity. }
  assert (Hgone : CV_key E' self n0 = None).
  { unfold CV_key. rewrite CV_outcome_unfitted; [reflexivity |].
    unfold fitted. rewrite Hfail. reflexivity. }
  pose proof (first_least_without (CV_key E self) (CV_key E' self) _ _ _ n0
                Hsame Hgone Hn Hkey) as Hkey'.
  rewrite !CV_select_choose.
  rewrite (first_least_choose _ _ _ _ Hkey), (first_least_choose _ _ _ _ Hkey').
  rewrite (Hfitted n Hn). reflexivity.
Qed.

End Further.

(* ================================================================== *)
(** ** The further properties on the small corpus *)

Lemma select_model_fitted_on_own_data_witness :
  hmm_fit (stub_env never ll_frames) (X (demo_selector 1 2 3))
    (lengths (demo_selector 1 2 3)) 2 (random_state (demo_selector 1 2 3)) =
    Ret (X (demo_selector 1 2 3)) /\
  14 = random_state (demo_selector 1 2 3).
Proof.
  apply (select_model_fitted_on_own_data (stub_env never ll_frames) BIC
           (demo_selector 1 2 3) demo_world
           {| n_components := 2; hmm_random_state := 14;
              fitted_params := X (demo_selector 1 2 3) |}).
  vm_compute. reflexivity.
Defined.

Lemma select_empty_range_witness :
  fst (select (stub_env never ll_frames) CV (demo_selector 1 5 2) demo_world) =
  fst (base_model (stub_env never ll_frames) (demo_selector 1 5 2) 1 demo_world).
Proof.
  apply (select_empty_range (stub_env never ll_frames) CV (demo_selector 1 5 2) demo_world).
  cbn. lia.
Defined.

Lemma SelectorBIC_no_rows_witness :
  fst (select (stub_env never ll_six) BIC empty_selector demo_world) =
  fst (base_model (stub_env never ll_six) empty_selector 3 demo_world).
Proof.
  apply (SelectorBIC_no_rows (stub_env never ll_six) empty_selector demo_world).
  reflexivity.
Defined.

Lemma SelectorBIC_score_grows_with_states_witness :
  exists q q',
    BIC_score (stub_env never ll_six) (demo_selector 1 2 3) 2 demo_world = Some q /\
    BIC_score (stub_env never ll_six) (demo_selector 1 2 3) 3 demo_world = Some q' /\
    (q < q')%Q.
Proof.
  apply (SelectorBIC_score_grows_with_states (stub_env never ll_six) (demo_selector 1 2 3)
           demo_world 2 3 (X (demo_selector 1 2 3)) (X (demo_selector 1 2 3))
           [0%Q] [[0%Q]; [1%Q]; [2%Q]] 6%Q);
    first [reflexivity | lia].
Defined.

Lemma SelectorBIC_first_least_score_witness :
  exists m,
    fst (base_model (stub_env never ll_frames) (demo_selector 1 2 3) 2 demo_world) =
      Ret (Some m) /\
    fst (select (stub_env never ll_frames) BIC (demo_selector 1 2 3) demo_world) =
      Ret (Some m).
Proof.
  apply (SelectorBIC_first_least_score (stub_env never ll_frames) (demo_selector 1 2 3)
           demo_world 2 20%Q).
  exists [], [3]. split; [reflexivity |]. split; [vm_compute; reflexivity |].
  split; [intros n' v' [] |].
  intros n' v' [<- | []] Hv'. vm_compute in Hv'. inversion Hv'. discriminate.
Defined.

Lemma SelectorBIC_equal_likelihood_smallest_witness :
  exists m,
    n_components m = min_n_components (demo_selector 1 2 3) /\
    fst (select (stub_env never ll_six) BIC (demo_selector 1 2 3) demo_world) =
      Ret (Some m).
Proof.
  apply (SelectorBIC_equal_likelihood_smallest (stub_env never ll_six) (demo_selector 1 2 3)
           demo_world [0%Q] [[0%Q]; [1%Q]; [2%Q]] 6%Q).
  - reflexivity.
  - reflexivity.
  - cbn. lia.
  - intros n _. exists (X (demo_selector 1 2 3)). split; reflexivity.
Defined.

Lemma SelectorBIC_failure_elsewhere_witness :
  fst (select (stub_env only_three ll_frames) BIC (demo_selector 1 2 3) demo_world) =
  fst (select (stub_env never ll_frames) BIC (demo_selector 1 2 3) demo_world).
Proof.
  apply (SelectorBIC_failure_elsewhere (stub_env never ll_frames)
           (stub_env only_three ll_frames) (demo_selector 1 2 3) demo_world
           3 2 20%Q (LibraryError 1)).
  - intros k Hk. unfold stub_env, hmm_fit, stub_fit, only_three, never.
    destruct (Z.eqb_spec k 3); [contradiction | reflexivity].
  - intro m. reflexivity.
  - reflexivity.
  - reflexivity.
  - exists [], [3]. split; [reflexivity |]. split; [vm_compute; reflexivity |].
    split; [intros n' v' [] |].
    intros n' v' [<- | []] Hv'. vm_compute in Hv'. inversion Hv'. discriminate.
  - discriminate.
Defined.

Lemma SelectorCV_score_last_over_count_witness :
  CV_score (stub_env never ll_frames) (demo_selector 1 2 3) 2 demo_world =
  Some (last (successes
                (map (fold_log_likelihood (stub_env never ll_frames)
                        (demo_selector 1 2 3) 2 demo_world)
                     [([1; 2], [0]); ([0; 2], [1]); ([0; 1], [2])]%nat)) 0
        / inject_Z (len (successes
                (map (fold_log_likelihood (stub_env never ll_frames)
                        (demo_selector 1 2 3) 2 demo_world)
                     [([1; 2], [0]); ([0; 2], [1]); ([0; 1], [2])]%nat))))%Q.
Proof.
  apply (SelectorCV_score_last_over_count (stub_env never ll_frames) (demo_selector 1 2 3)
           2 demo_world).
  - reflexivity.
  - intros fold [<- | [<- | [<- | []]]]; eexists; reflexivity.
  - vm_compute. discriminate.
Defined.

Lemma SelectorCV_split_fails_witness :
  fst (select (stub_env never ll_six) CV chair_selector demo_world) =
  fst (base_model (stub_env never ll_six) chair_selector 3 demo_world).
Proof.
  apply (SelectorCV_split_fails (stub_env never ll_six) chair_selector demo_world
           ValueError).
  reflexivity.
Defined.

Lemma SelectorCV_first_greatest_score_witness :
  exists m,
    fst (base_model (stub_env never ll_six) (demo_selector 1 2 3) 2 demo_world) =
      Ret (Some m) /\
    fst (select (stub_env never ll_six) CV (demo_selector 1 2 3) demo_world) =
      Ret (Some m).
Proof.
  apply (SelectorCV_first_greatest_score (stub_env never ll_six) (demo_selector 1 2 3)
           demo_world 2 (6 # 3)%Q).
  exists [], [3]. split; [reflexivity |]. split; [vm_compute; reflexivity |].
  split; [intros n' v' [] |].
  intros n' v' [<- | []] Hv'. vm_compute in Hv'. inversion Hv'. discriminate.
Defined.

Lemma SelectorCV_ignores_test_indices_witness :
  fst (select (stub_env_blind never ll_six) CV (demo_selector 1 2 3) demo_world) =
  fst (select (stub_env never ll_six) CV (demo_selector 1 2 3) demo_world).
Proof.
  apply (SelectorCV_ignores_test_indices (stub_env never ll_six)
           (stub_env_blind never ll_six) (demo_selector 1 2 3) demo_world
           [([1; 2], [0]); ([0; 2], [1]); ([0; 1], [2])]%nat
           [([1; 2], []); ([0; 2], []); ([0; 1], [])]%nat);
    reflexivity.
Defined.

Lemma SelectorDIC_no_other_word_witness :
  fst (select (stub_env never ll_first) DIC (demo_selector 1 2 3) solo_world) =
  fst (base_model (stub_env never ll_first) (demo_selector 1 2 3) 1 solo_world).
Proof.
  apply (SelectorDIC_no_other_word (stub_env never ll_first) (demo_selector 1 2 3)
           solo_world).
  intros others H. vm_compute in H. inversion H. reflexivity.
Defined.

Lemma SelectorDIC_score_falls_with_others_witness :
  exists q q',
    score (snd (snd (SelectorDIC_candidate (stub_env never ll_first) (demo_selector 1 2 3) 2
                       (demo_world, fresh_frame)))) = Some q /\
    score (snd (snd (SelectorDIC_candidate (stub_env never ll_first_up)
                       (demo_selector 1 2 3) 2 (demo_world, fresh_frame)))) = Some q' /\
    (q' < q)%Q.
Proof.
  apply (SelectorDIC_score_falls_with_others (stub_env never ll_first)
           (stub_env never ll_first_up) (demo_selector 1 2 3) demo_world
           ["CHAIR"; "FISH"]%string 2 fresh_frame fresh_frame 0%Q
           (fun word => if String.eqb word "CHAIR" then (-10)%Q else 100%Q)
           (fun word => if String.eqb word "CHAIR" then (-9)%Q else 101%Q)).
  - reflexivity.
  - discriminate.
  - split.
    + eexists. split; reflexivity.
    + intros word [<- | [<- | []]]; eexists; eexists; repeat split; reflexivity.
  - split.
    + eexists. split; reflexivity.
    + intros word [<- | [<- | []]]; eexists; eexists; repeat split; reflexivity.
  - intros word [<- | [<- | []]]; reflexivity.
Defined.

Lemma SelectorDIC_divisor_not_negative_witness :
  1 <= number_of_words
         (snd (snd (SelectorDIC_candidate (stub_env never ll_first) (demo_selector 1 2 3) 2
                      (demo_world, fresh_frame))))
    <= len (dict_keys (all_word_sequences demo_world)) /\
  (number_of_words
     (snd (snd (SelectorDIC_candidate (stub_env never ll_first) (demo_selector 1 2 3) 2
                  (demo_world, fresh_frame)))) = 1 ->
   accumulated_log_likelihood_of_all_words_except_i
     (snd (snd (SelectorDIC_candidate (stub_env never ll_first) (demo_selector 1 2 3) 2
                  (demo_world, fresh_frame)))) = 0%Q).
Proof.
  apply (SelectorDIC_divisor_not_negative (stub_env never ll_first) (demo_selector 1 2 3)
           2 demo_world fresh_frame
           {| n_components := 2; hmm_random_state := 14;
              fitted_params := X (demo_selector 1 2 3) |}
           0%Q ["CHAIR"; "FISH"]%string);
    reflexivity.
Defined.

Lemma SelectorCV_failure_elsewhere_witness :
  fst (select (stub_env only_three ll_six) CV (demo_selector 1 2 3) demo_world) =
  fst (select (stub_env never ll_six) CV (demo_selector 1 2 3) demo_world).
Proof.
  apply (SelectorCV_failure_elsewhere (stub_env never ll_six)
           (stub_env only_three ll_six) (demo_selector 1 2 3) demo_world
           3 2 (6 # 3)%Q (LibraryError 1)).
  - intros k Hk. unfold stub_env, hmm_fit, stub_fit, only_three, never.
    destruct (Z.eqb_spec k 3); [contradiction | reflexivity].
  - intros m X0 lengths0. reflexivity.
  - intro idx. reflexivity.
  - reflexivity.
  - reflexivity.
  - exists [], [3]. split; [reflexivity |]. split; [vm_compute; reflexivity |].
    split; [intros n' v' [] |].
    intros n' v' [<- | []] Hv'. vm_compute in Hv'. inversion Hv'. discriminate.
  - discriminate.
Defined.
